(** * A CPU scheduling simulator: FCFS and Round-Robin over a table of PCBs

    Shallow embedding of [parta.c] (init_procs, run_proc, fcfs_run, rr_next,
    rr_run) and the properties of its scheduling engine.

    Conventions of the embedding.
    - A C [int] is a [Z]; [+=] and [-=] are written with the 32-bit
      two's-complement wrap-around ([int_add], [int_sub]).  Loop counters
      stay below [plen] and are incremented without a wrap.
    - A [struct pcb*] is an [option (list pcb)]: [None] is the NULL pointer,
      [Some ps] the array it points to.  The length the callee may touch is
      the separate [plen] argument, as in C.  Reads outside the array give
      [pcb0] and writes outside do nothing; the theorems about a table
      assume [plen = length ps], where neither happens.
    - A function that mutates the array returns the new array.
    - [while] loops whose trip count is not a loop counter take fuel and return
      [None] when it runs out.
    - Standard output and standard error are the lists of the texts written
      to them, one per [printf] call and in order; [%d] is the decimal text
      [pretty] gives.  What the C library and floating point do is taken as
      given: main gets [atoi] and the text [%.2f] prints for the average as
      arguments, and each [malloc] answer is an argument as well. *)

From stdpp Require Import base numbers list strings pretty.
From Stdlib Require Import ZArith Lia Ascii.

Local Open Scope Z_scope.

(** ** C integers *)

Definition INT_MIN : Z := -2147483648.
Definition INT_MAX : Z := 2147483647.

Definition int_range (z : Z) : Prop := INT_MIN <= z <= INT_MAX.

Definition wrap_int (z : Z) : Z := (z + 2147483648) mod 4294967296 - 2147483648.

Definition int_add (a b : Z) : Z := wrap_int (a + b).
Definition int_sub (a b : Z) : Z := wrap_int (a - b).

(** ** The process table *)

(** [struct pcb] is declared in parta.h; its three [int] fields are the ones
    parta.c reads and writes. *)
Record pcb : Type := mk_pcb { pid : Z; burst_left : Z; wait : Z }.

Definition pcb0 : pcb := mk_pcb 0 0 0.

Definition is_null {A : Type} (p : option A) : bool :=
  match p with None => true | Some _ => false end.

(** [procs[i]] as an rvalue. *)
Definition load (procs : option (list pcb)) (i : Z) : pcb :=
  match procs with
  | Some ps => default pcb0 (ps !! Z.to_nat i)
  | None => pcb0
  end.

(** [procs[i] = p]. *)
Definition store (procs : option (list pcb)) (i : Z) (p : pcb) : option (list pcb) :=
  match procs with
  | Some ps => Some (<[Z.to_nat i := p]> ps)
  | None => None
  end.

Definition set_pid (procs : option (list pcb)) (i v : Z) : option (list pcb) :=
  store procs i (mk_pcb v (burst_left (load procs i)) (wait (load procs i))).

Definition set_burst_left (procs : option (list pcb)) (i v : Z) : option (list pcb) :=
  store procs i (mk_pcb (pid (load procs i)) v (wait (load procs i))).

Definition set_wait (procs : option (list pcb)) (i v : Z) : option (list pcb) :=
  store procs i (mk_pcb (pid (load procs i)) (burst_left (load procs i)) v).

(** [bursts[i]] for an [int*]. *)
Definition load_int (bursts : option (list Z)) (i : Z) : Z :=
  match bursts with
  | Some bs => default 0 (bs !! Z.to_nat i)
  | None => 0
  end.

(** ** init_procs *)

(** The [for] loop of init_procs, [n] iterations left, counter at [i]. *)
Fixpoint init_procs_loop (n : nat) (i : Z) (bursts : option (list Z))
    (procs : option (list pcb)) : option (list pcb) :=
  match n with
  | O => procs
  | S n' =>
      let procs := set_pid procs i i in
      let procs := set_burst_left procs i (load_int bursts i) in
      let procs := set_wait procs i 0 in
      init_procs_loop n' (i + 1) bursts procs
  end.

(** [block] is what [malloc(sizeof(struct pcb) * blen)] answers: [None] when
    the allocation fails, else an array of [blen] cells of arbitrary
    content. *)
Definition init_procs (block : option (list pcb)) (bursts : option (list Z))
    (blen : Z) : option (list pcb) :=
  if (blen <=? 0) || is_null bursts then None
  else
    let procs := block in
    if is_null procs then None
    else init_procs_loop (Z.to_nat blen) 0 bursts procs.

(** ** run_proc *)

(** The waiting loop of run_proc (lines 82-89). *)
Fixpoint run_proc_wait (n : nat) (i : Z) (procs : option (list pcb))
    (current used : Z) : option (list pcb) :=
  match n with
  | O => procs
  | S n' =>
      if i =? current then run_proc_wait n' (i + 1) procs current used
      else if burst_left (load procs i) >? 0 then
        run_proc_wait n' (i + 1)
          (set_wait procs i (int_add (wait (load procs i)) used)) current used
      else run_proc_wait n' (i + 1) procs current used
  end.

Definition run_proc (procs : option (list pcb)) (plen current amount : Z)
    : option (list pcb) :=
  if is_null procs || (plen <=? 0) || (current <? 0) || (current >=? plen)
     || (amount <=? 0)
  then procs
  else
    let remaining := burst_left (load procs current) in
    if remaining <=? 0 then procs
    else
      let used := amount in
      let used := if used >? remaining then remaining else used in
      let procs :=
        set_burst_left procs current
          (int_sub (burst_left (load procs current)) used) in
      let procs :=
        if burst_left (load procs current) <? 0
        then set_burst_left procs current 0
        else procs in
      run_proc_wait (Z.to_nat plen) 0 procs current used.

(** ** fcfs_run *)

Fixpoint fcfs_loop (n : nat) (i : Z) (procs : option (list pcb)) (plen time : Z)
    : option (list pcb) * Z :=
  match n with
  | O => (procs, time)
  | S n' =>
      if burst_left (load procs i) <=? 0 then fcfs_loop n' (i + 1) procs plen time
      else
        let amount := burst_left (load procs i) in
        let procs := run_proc procs plen i amount in
        fcfs_loop n' (i + 1) procs plen (int_add time amount)
  end.

(** Returns the array after the run and the [int] result. *)
Definition fcfs_run (procs : option (list pcb)) (plen : Z) : option (list pcb) * Z :=
  if is_null procs || (plen <=? 0) then (procs, 0)
  else
    let time := 0 in
    fcfs_loop (Z.to_nat plen) 0 procs plen time.

(** ** rr_next *)

(** Lines 143-148: the value of [any_remaining] after the loop. *)
Fixpoint rr_any_remaining (n : nat) (i : Z) (procs : option (list pcb)) : bool :=
  match n with
  | O => false
  | S n' =>
      if burst_left (load procs i) >? 0 then true
      else rr_any_remaining n' (i + 1) procs
  end.

(** Lines 155-160 and again 178-184: the first index from [i] on with
    [burst_left > 0], else the [-1] returned after the loop. *)
Fixpoint rr_first (n : nat) (i : Z) (procs : option (list pcb)) : Z :=
  match n with
  | O => -1
  | S n' =>
      if burst_left (load procs i) >? 0 then i
      else rr_first n' (i + 1) procs
  end.

(** How the [while (i != current)] loop ends. *)
Inductive scan_exit : Type :=
  | Returned (i : Z)
  | Wrapped.

(** Lines 165-170; [None] when the fuel does not suffice. *)
Fixpoint rr_scan (fuel : nat) (procs : option (list pcb)) (plen current i : Z)
    : option scan_exit :=
  match fuel with
  | O => None
  | S fuel' =>
      if negb (i =? current) then
        if burst_left (load procs i) >? 0 then Some (Returned i)
        else rr_scan fuel' procs plen current (Z.rem (i + 1) plen)
      else Some Wrapped
  end.

(** The scan gets [plen] units of fuel; [rr_next_returns] below shows that this
    is always enough, so the result is never [None]. *)
Definition rr_next (current : Z) (procs : option (list pcb)) (plen : Z) : option Z :=
  if is_null procs || (plen <=? 0) then Some (-1)
  else
    let any_remaining := rr_any_remaining (Z.to_nat plen) 0 procs in
    if negb any_remaining then Some (-1)
    else if (current <? 0) || (current >=? plen) then
      Some (rr_first (Z.to_nat plen) 0 procs)
    else
      let i := Z.rem (current + 1) plen in
      match rr_scan (Z.to_nat plen) procs plen current i with
      | None => None
      | Some (Returned i) => Some i
      | Some Wrapped =>
          if burst_left (load procs current) >? 0 then Some current
          else Some (rr_first (Z.to_nat plen) 0 procs)
      end.

(** ** rr_run *)

(** The variables the [while (1)] loop of rr_run carries. *)
Record rr_state : Type := mk_rr_state {
  rr_procs : option (list pcb);
  rr_time : Z;
  rr_current : Z
}.

Inductive rr_outcome : Type :=
  | Break (s : rr_state)
  | Again (s : rr_state).

(** One pass through the body of the loop (lines 207-219). *)
Definition rr_iter (s : rr_state) (plen quantum : Z) : option rr_outcome :=
  match rr_next (rr_current s) (rr_procs s) plen with
  | None => None
  | Some current =>
      if current =? -1 then Some (Break (mk_rr_state (rr_procs s) (rr_time s) current))
      else
        let remaining := burst_left (load (rr_procs s) current) in
        if remaining <=? 0 then
          Some (Again (mk_rr_state (rr_procs s) (rr_time s) current))
        else
          let amount := if remaining <? quantum then remaining else quantum in
          let procs := run_proc (rr_procs s) plen current amount in
          Some (Again (mk_rr_state procs (int_add (rr_time s) amount) current))
  end.

Fixpoint rr_loop (fuel : nat) (s : rr_state) (plen quantum : Z) : option rr_state :=
  match fuel with
  | O => None
  | S fuel' =>
      match rr_iter s plen quantum with
      | None => None
      | Some (Break s') => Some s'
      | Some (Again s') => rr_loop fuel' s' plen quantum
      end
  end.

(** Returns the array after the run and the [int] result; [None] when the
    fuel does not suffice for the loop. *)
Definition rr_run (fuel : nat) (procs : option (list pcb)) (plen quantum : Z)
    : option (option (list pcb) * Z) :=
  if is_null procs || (plen <=? 0) || (quantum <=? 0) then Some (procs, 0)
  else
    let time := 0 in
    let current := -1 in
    match rr_loop fuel (mk_rr_state procs time current) plen quantum with
    | None => None
    | Some s => Some (rr_procs s, rr_time s)
    end.

(** [rr_run] returns [res]: from some fuel on, every run gives [res]. *)
Definition rr_run_returns (procs : option (list pcb)) (plen quantum : Z)
    (res : option (list pcb) * Z) : Prop :=
  exists n : nat, forall m : nat, (n <= m)%nat -> rr_run m procs plen quantum = Some res.

(** ** printall *)

Definition nl : string := String "010"%char EmptyString.

(** The text of [printf("P%d: burst_left=%d wait=%d\n", ...)] for one PCB. *)
Definition printall_line (p : pcb) : string :=
  "P" +:+ pretty (pid p) +:+ ": burst_left=" +:+ pretty (burst_left p)
  +:+ " wait=" +:+ pretty (wait p) +:+ nl.

Fixpoint printall_loop (n : nat) (i : Z) (procs : option (list pcb))
    (stdout : list string) : list string :=
  match n with
  | O => stdout
  | S n' =>
      printall_loop n' (i + 1) procs (stdout ++ [printall_line (load procs i)])
  end.

(** What printall appends to the standard output [stdout]. *)
Definition printall (procs : option (list pcb)) (plen : Z) (stdout : list string)
    : list string :=
  if is_null procs || (plen <=? 0) then stdout
  else printall_loop (Z.to_nat plen) 0 procs stdout.

(** ** main (parta_main.c) *)

Record main_result : Type := mk_main_result {
  main_status : Z;
  main_stdout : list string;
  main_stderr : list string
}.

Definition err_missing : string := "ERROR: Missing arguments" +:+ nl.
Definition err_alloc : string := "ERROR: Memory allocation failed" +:+ nl.
Definition err_init : string := "ERROR: Failed to initialize processes" +:+ nl.

(** [argv[i]]. *)
Definition arg (argv : list string) (i : Z) : string :=
  default EmptyString (argv !! Z.to_nat i).

(** [bursts[i] = v] for an [int*]. *)
Definition store_int (bursts : option (list Z)) (i v : Z) : option (list Z) :=
  match bursts with
  | Some bs => Some (<[Z.to_nat i := v]> bs)
  | None => None
  end.

(** [for (i ...) bursts[i] = atoi(argv[first + i]);] *)
Fixpoint main_parse_loop (atoi : string -> Z) (argv : list string) (first : Z)
    (n : nat) (i : Z) (bursts : option (list Z)) : option (list Z) :=
  match n with
  | O => bursts
  | S n' =>
      main_parse_loop atoi argv first n' (i + 1)
        (store_int bursts i (atoi (arg argv (first + i))))
  end.

Definition accepted_line (i b : Z) : string :=
  "Accepted P" +:+ pretty i +:+ ": Burst " +:+ pretty b +:+ nl.

(** [for (i ...) printf("Accepted P%d: Burst %d\n", i, bursts[i]);] *)
Fixpoint main_accept_loop (n : nat) (i : Z) (bursts : option (list Z))
    (stdout : list string) : list string :=
  match n with
  | O => stdout
  | S n' =>
      main_accept_loop n' (i + 1) bursts
        (stdout ++ [accepted_line i (load_int bursts i)])
  end.

(** [for (i ...) sum_wait += procs[i].wait;]: the terms added to the
    [double], in order. *)
Fixpoint main_sum_loop (n : nat) (i : Z) (procs : option (list pcb))
    (terms : list Z) : list Z :=
  match n with
  | O => terms
  | S n' => main_sum_loop n' (i + 1) procs (terms ++ [wait (load procs i)])
  end.

(** [show_avg terms plen] stands for the text [%.2f] prints for
    [avg_wait = sum_wait / (double)plen]. *)
Definition average_line (show_avg : list Z -> Z -> string) (terms : list Z)
    (plen : Z) : string :=
  "Average wait time: " +:+ show_avg terms plen +:+ nl.

(** [bursts_block] is the answer of main's own [malloc], [procs_block] the
    answer of the one in init_procs; [fuel] is for the loop of rr_run. *)
Definition main (atoi : string -> Z) (show_avg : list Z -> Z -> string)
    (fuel : nat) (bursts_block : option (list Z)) (procs_block : option (list pcb))
    (argv : list string) : option main_result :=
  let argc := Z.of_nat (length argv) in
  if argc <? 3 then Some (mk_main_result 1 [err_missing] [])
  else
    let alg := arg argv 1 in
    if String.eqb alg "fcfs" then
      if argc <? 3 then Some (mk_main_result 1 [err_missing] [])
      else
        let plen := argc - 2 in
        let bursts := bursts_block in
        if is_null bursts then Some (mk_main_result 1 [] [err_alloc])
        else
          let bursts := main_parse_loop atoi argv 2 (Z.to_nat plen) 0 bursts in
          let stdout := ["Using FCFS" +:+ nl +:+ nl] in
          let stdout := main_accept_loop (Z.to_nat plen) 0 bursts stdout in
          let procs := init_procs procs_block bursts plen in
          if is_null procs then Some (mk_main_result 1 stdout [err_init])
          else
            let procs := fst (fcfs_run procs plen) in
            let terms := main_sum_loop (Z.to_nat plen) 0 procs [] in
            let stdout := stdout ++ [average_line show_avg terms plen] in
            Some (mk_main_result 0 stdout [])
    else if String.eqb alg "rr" then
      if argc <? 4 then Some (mk_main_result 1 [err_missing] [])
      else
        let quantum := atoi (arg argv 2) in
        let plen := argc - 3 in
        let bursts := bursts_block in
        if is_null bursts then Some (mk_main_result 1 [] [err_alloc])
        else
          let bursts := main_parse_loop atoi argv 3 (Z.to_nat plen) 0 bursts in
          let stdout := ["Using RR(" +:+ pretty quantum +:+ ")." +:+ nl +:+ nl] in
          let stdout := main_accept_loop (Z.to_nat plen) 0 bursts stdout in
          let procs := init_procs procs_block bursts plen in
          if is_null procs then Some (mk_main_result 1 stdout [err_init])
          else
            match rr_run fuel procs plen quantum with
            | None => None
            | Some (procs, _) =>
                let terms := main_sum_loop (Z.to_nat plen) 0 procs [] in
                let stdout := stdout ++ [average_line show_avg terms plen] in
                Some (mk_main_result 0 stdout [])
            end
    else Some (mk_main_result 1 [err_missing] []).

(** ** Vocabulary of the specification *)

Definition valid_table (ps : list pcb) (plen : Z) : Prop :=
  plen = Z.of_nat (length ps).

Definition int_pcb (p : pcb) : Prop :=
  int_range (pid p) /\ int_range (burst_left p) /\ int_range (wait p).

Definition int_table (ps : list pcb) : Prop := Forall int_pcb ps.

Definition runnable (ps : list pcb) (i : Z) : Prop :=
  0 <= i < Z.of_nat (length ps) /\ burst_left (load (Some ps) i) > 0.

Fixpoint sum_Z (l : list Z) : Z :=
  match l with
  | [] => 0
  | x :: l' => x + sum_Z l'
  end.

(** Sum of the positive entries. *)
Fixpoint sum_pos (l : list Z) : Z :=
  match l with
  | [] => 0
  | b :: l' => if b >? 0 then b + sum_pos l' else sum_pos l'
  end.

Definition bursts_of (ps : list pcb) : list Z := burst_left <$> ps.

(** Sum over all processes of [burst_left]. *)
Definition total_burst (ps : list pcb) : Z := sum_Z (bursts_of ps).

(** Cyclic forward distance of [i] from [previous + 1], modulo [plen]. *)
Definition cyc_dist (plen previous i : Z) : Z := (i - (previous + 1)) mod plen.

(** The time a call of run_proc advances: [used], or nothing when the call
    returns at one of its guards. *)
Definition time_advanced (procs : option (list pcb)) (plen current amount : Z) : Z :=
  if is_null procs || (plen <=? 0) || (current <? 0) || (current >=? plen)
     || (amount <=? 0)
  then 0
  else
    let remaining := burst_left (load procs current) in
    if remaining <=? 0 then 0 else Z.min amount remaining.

(** The table init_procs builds from [bursts]. *)
Definition fresh_table (bursts : list Z) : list pcb :=
  imap (fun i b => mk_pcb (Z.of_nat i) b 0) bursts.

(** ** What the operations do to one cell *)

(** What one pass of the loop body does to a cell that is not [current]. *)
Definition waited (used : Z) (p : pcb) : pcb :=
  if burst_left p >? 0 then mk_pcb (pid p) (burst_left p) (int_add (wait p) used)
  else p.

(** What run_proc does to the cell of [current]. *)
Definition ran (used : Z) (p : pcb) : pcb :=
  mk_pcb (pid p) (burst_left p - used) (wait p).

Definition run_proc_cell (current used : Z) (k : nat) (p : pcb) : pcb :=
  if Z.of_nat k =? current then ran used p else waited used p.

(** The cell of a process once FCFS is over, [before] being the time the
    processes ahead of it have run. *)
Definition fcfs_cell (before : Z) (p : pcb) : pcb :=
  if burst_left p >? 0 then mk_pcb (pid p) 0 (wrap_int (wait p + before)) else p.

(** How a cell ends up after a Round-Robin run. *)
Definition rr_done (p p' : pcb) : Prop :=
  pid p' = pid p /\ burst_left p' = Z.min (burst_left p) 0
  /\ (burst_left p <= 0 -> p' = p).

(** The three ways rr_next picks an index [r]. *)
Definition rr_choice (procs : option (list pcb)) (plen current r : Z) : Prop :=
  (~ 0 <= current < plen
   /\ forall j : Z, 0 <= j < r -> burst_left (load procs j) <= 0)
  \/ (0 <= current < plen /\ r <> current
      /\ forall j : Z, 0 <= j < plen -> j <> current -> j <> r ->
           burst_left (load procs j) > 0 ->
           cyc_dist plen current r < cyc_dist plen current j)
  \/ (0 <= current < plen /\ r = current
      /\ forall j : Z, 0 <= j < plen -> j <> current ->
           burst_left (load procs j) <= 0).

(** Number of time slices a Round-Robin run takes: a process with
    [burst_left = b > 0] needs [b / quantum] slices, rounded up. *)
Definition time_slices (quantum : Z) (ps : list pcb) : Z :=
  sum_Z ((fun b => (Z.max b 0 + quantum - 1) / quantum) <$> bursts_of ps).

(** Total positive burst of the processes other than [k]. *)
Definition others_pos (ps : list pcb) (k : nat) : Z :=
  sum_pos (bursts_of ps) - Z.max (default 0 (bursts_of ps !! k)) 0.

Ltac int_table_tac :=
  repeat constructor; unfold int_range, INT_MIN, INT_MAX; simpl; lia.

(** ** Scenarios of the specification, run on the embedding *)

Example scenario_A :
  fcfs_run (Some (fresh_table [5; 3; 8])) 3
  = (Some [mk_pcb 0 0 0; mk_pcb 1 0 5; mk_pcb 2 0 8], 16).
Proof. reflexivity. Qed.

Example scenario_B :
  rr_run 10 (Some (fresh_table [5; 3; 8])) 3 4
  = Some (Some [mk_pcb 0 0 7; mk_pcb 1 0 4; mk_pcb 2 0 8], 16).
Proof. reflexivity. Qed.

Example scenario_C :
  fcfs_run (Some (fresh_table [7])) 1 = (Some [mk_pcb 0 0 0], 7)
  /\ rr_run 5 (Some (fresh_table [7])) 1 3 = Some (Some [mk_pcb 0 0 0], 7).
Proof. split; reflexivity. Qed.

Example scenario_D :
  init_procs (Some []) (Some []) 0 = None /\ init_procs (Some []) None 3 = None.
Proof. split; reflexivity. Qed.

(** * Properties *)

(** ** Wrap-around *)

Lemma wrap_int_id (z : Z) : int_range z -> wrap_int z = z.
Proof.
  unfold int_range, INT_MIN, INT_MAX, wrap_int. intros Hz.
  rewrite Z.mod_small; lia.
Qed.

Lemma wrap_int_range (z : Z) : int_range (wrap_int z).
Proof.
  unfold int_range, INT_MIN, INT_MAX, wrap_int.
  pose proof (Z.mod_pos_bound (z + 2147483648) 4294967296). lia.
Qed.

Lemma wrap_int_add_l (a b : Z) : wrap_int (wrap_int a + b) = wrap_int (a + b).
Proof.
  unfold wrap_int. f_equal.
  replace ((a + 2147483648) mod 4294967296 - 2147483648 + b + 2147483648)
    with ((a + 2147483648) mod 4294967296 + b) by lia.
  rewrite Zplus_mod_idemp_l. f_equal. lia.
Qed.

(** ** Reading and writing cells *)

Lemma load_Some (ps : list pcb) (k : nat) (p : pcb) :
  ps !! k = Some p -> load (Some ps) (Z.of_nat k) = p.
Proof. intros H. unfold load. rewrite Nat2Z.id, H. reflexivity. Qed.

Lemma load_Some_Z (ps : list pcb) (i : Z) (p : pcb) :
  ps !! Z.to_nat i = Some p -> load (Some ps) i = p.
Proof. intros H. unfold load. rewrite H. reflexivity. Qed.

Lemma load_outside (ps : list pcb) (i : Z) :
  (length ps <= Z.to_nat i)%nat -> load (Some ps) i = pcb0.
Proof.
  intros H. unfold load. rewrite (proj2 (lookup_ge_None ps (Z.to_nat i))); auto.
Qed.

Lemma lookup_in_range (ps : list pcb) (i : Z) :
  0 <= i < Z.of_nat (length ps) -> exists p, ps !! Z.to_nat i = Some p.
Proof.
  intros H. destruct (lookup_lt_is_Some_2 ps (Z.to_nat i)) as [p Hp]; [lia | eauto].
Qed.

(** ** The waiting loop of run_proc *)

Lemma run_proc_wait_spec (current used : Z) (n : nat) :
  forall (i : nat) (ps : list pcb),
  exists ps' : list pcb,
    run_proc_wait n (Z.of_nat i) (Some ps) current used = Some ps'
    /\ length ps' = length ps
    /\ forall (k : nat) (p : pcb), ps !! k = Some p ->
         ps' !! k = Some (if decide ((i <= k < i + n)%nat /\ Z.of_nat k <> current)
                          then waited used p else p).
Proof.
  induction n as [|n IH]; intros i ps.
  - exists ps. simpl. repeat split; auto. intros k p Hk.
    destruct (decide _) as [[? _]|_]; [lia | assumption].
  - cbn [run_proc_wait].
    replace (Z.of_nat i + 1) with (Z.of_nat (S i)) by lia.
    destruct (Z.eqb_spec (Z.of_nat i) current) as [Heq|Hne].
    + destruct (IH (S i) ps) as (ps' & Hrun & Hlen & Hcell).
      exists ps'. repeat split; auto. intros k p Hk. rewrite (Hcell k p Hk).
      repeat destruct (decide _); auto; lia.
    + destruct (ps !! i) as [pi|] eqn:Hi.
      * rewrite (load_Some ps i pi Hi).
        destruct (burst_left pi >? 0) eqn:Hpos.
        -- unfold set_wait, store. rewrite (load_Some ps i pi Hi), Nat2Z.id.
           destruct (IH (S i) (<[i := mk_pcb (pid pi) (burst_left pi)
                                        (int_add (wait pi) used)]> ps))
             as (ps' & Hrun & Hlen & Hcell).
           exists ps'. rewrite length_insert in Hlen. repeat split; auto.
           intros k p Hk. destruct (decide (k = i)) as [->|Hki].
           ++ rewrite Hi in Hk. injection Hk as <-.
              rewrite (Hcell i _ (list_lookup_insert_eq _ _ _ (lookup_lt_Some _ _ _ Hi))).
              unfold waited. rewrite Hpos.
              repeat destruct (decide _); auto; lia.
           ++ rewrite (Hcell k p) by (rewrite list_lookup_insert_ne; auto).
              repeat destruct (decide _); auto; lia.
        -- destruct (IH (S i) ps) as (ps' & Hrun & Hlen & Hcell).
           exists ps'. repeat split; auto. intros k p Hk. rewrite (Hcell k p Hk).
           destruct (decide (k = i)) as [->|Hki].
           ++ rewrite Hi in Hk. injection Hk as <-. unfold waited. rewrite Hpos.
              repeat destruct (decide _); auto.
           ++ repeat destruct (decide _); auto; lia.
      * rewrite load_outside by (rewrite Nat2Z.id; apply lookup_ge_None; auto).
        simpl.
        destruct (IH (S i) ps) as (ps' & Hrun & Hlen & Hcell).
        exists ps'. repeat split; auto. intros k p Hk. rewrite (Hcell k p Hk).
        assert (k <> i) by (intros ->; congruence).
        repeat destruct (decide _); auto; lia.
Qed.

(** ** run_proc in closed form *)

Lemma int_table_lookup (ps : list pcb) (k : nat) (p : pcb) :
  int_table ps -> ps !! k = Some p -> int_pcb p.
Proof. intros Hint Hk. exact (proj1 (Forall_lookup _ _) Hint k p Hk). Qed.

Lemma run_proc_guard (procs : option (list pcb)) (plen current amount : Z) :
  is_null procs = true \/ plen <= 0 \/ current < 0 \/ current >= plen \/ amount <= 0 ->
  run_proc procs plen current amount = procs.
Proof.
  intros H. unfold run_proc.
  destruct (is_null procs); [reflexivity|].
  destruct (Z.leb_spec plen 0); [reflexivity|].
  destruct (Z.ltb_spec current 0); [reflexivity|].
  destruct (Z.geb_spec current plen); [reflexivity|].
  destruct (Z.leb_spec amount 0); [reflexivity|].
  simpl in H. intuition (try discriminate; lia).
Qed.

Lemma run_proc_finished (ps : list pcb) (plen current amount : Z) :
  burst_left (load (Some ps) current) <= 0 ->
  run_proc (Some ps) plen current amount = Some ps.
Proof.
  intros H. unfold run_proc.
  destruct (_ || _); [reflexivity|].
  destruct (Z.leb_spec (burst_left (load (Some ps) current)) 0); [reflexivity | lia].
Qed.

Lemma run_proc_active (ps : list pcb) (plen current amount : Z) (pc : pcb) :
  valid_table ps plen -> int_table ps ->
  0 <= current -> ps !! Z.to_nat current = Some pc ->
  0 < burst_left pc -> 0 < amount ->
  run_proc (Some ps) plen current amount
  = Some (imap (run_proc_cell current (Z.min amount (burst_left pc))) ps).
Proof.
  intros Hvalid Hint Hc0 Hc Hpos Hamount. unfold valid_table in Hvalid.
  pose proof (lookup_lt_Some _ _ _ Hc) as Hlt.
  destruct (int_table_lookup _ _ _ Hint Hc) as (_ & Hbl & _).
  unfold int_range, INT_MIN, INT_MAX in Hbl.
  unfold run_proc. cbn [is_null orb].
  destruct (Z.leb_spec plen 0); [lia|].
  destruct (Z.ltb_spec current 0); [lia|].
  destruct (Z.geb_spec current plen); [lia|].
  destruct (Z.leb_spec amount 0); [lia|]. cbn [orb].
  rewrite (load_Some_Z _ _ _ Hc).
  destruct (Z.leb_spec (burst_left pc) 0); [lia|].
  set (used := if amount >? burst_left pc then burst_left pc else amount).
  assert (Hused : used = Z.min amount (burst_left pc)).
  { unfold used. destruct (Z.gtb_spec amount (burst_left pc)); lia. }
  rewrite <- Hused. assert (0 < used <= burst_left pc) by lia.
  set (ps1 := <[Z.to_nat current := mk_pcb (pid pc) (burst_left pc - used) (wait pc)]> ps).
  assert (Hset : set_burst_left (Some ps) current (int_sub (burst_left pc) used)
                 = Some ps1).
  { unfold set_burst_left, store. rewrite (load_Some_Z _ _ _ Hc).
    unfold int_sub. rewrite wrap_int_id by (unfold int_range, INT_MIN, INT_MAX; lia).
    reflexivity. }
  rewrite Hset.
  assert (Hc1 : ps1 !! Z.to_nat current
                = Some (mk_pcb (pid pc) (burst_left pc - used) (wait pc))).
  { unfold ps1. apply list_lookup_insert_eq. assumption. }
  rewrite (load_Some_Z _ _ _ Hc1). cbn [burst_left].
  destruct (Z.ltb_spec (burst_left pc - used) 0); [lia|].
  destruct (run_proc_wait_spec current used (Z.to_nat plen) 0 ps1)
    as (ps' & Hrun & Hlen & Hcell).
  change (Z.of_nat 0) with 0 in Hrun. rewrite Hrun. f_equal.
  apply list_eq. intros k. rewrite list_lookup_imap.
  destruct (ps !! k) as [p|] eqn:Hk.
  - cbn [fmap option_fmap option_map]. unfold run_proc_cell.
    pose proof (lookup_lt_Some _ _ _ Hk) as Hklt.
    destruct (Z.eqb_spec (Z.of_nat k) current) as [Heq|Hne].
    + assert (k = Z.to_nat current) as -> by lia.
      rewrite Hc in Hk. injection Hk as <-.
      rewrite (Hcell _ _ Hc1). destruct (decide _) as [[_ Hn]|_]; [lia|].
      reflexivity.
    + assert (Hk1 : ps1 !! k = Some p).
      { unfold ps1. rewrite list_lookup_insert_ne by lia. assumption. }
      rewrite (Hcell _ _ Hk1). destruct (decide _) as [_|Hn]; [reflexivity|].
      exfalso. apply Hn. split; [lia | assumption].
  - cbn [fmap option_fmap option_map]. apply lookup_ge_None. rewrite Hlen.
    unfold ps1. rewrite length_insert. apply lookup_ge_None. assumption.
Qed.

(** ** Sums under an update of one cell *)

Lemma sum_Z_insert (l : list Z) (i : nat) (x y : Z) :
  l !! i = Some x -> sum_Z (<[i := y]> l) = sum_Z l - x + y.
Proof.
  revert i. induction l as [|a l IH]; intros [|i] H; simpl in *; try discriminate.
  - injection H as ->. lia.
  - rewrite (IH i H). lia.
Qed.

Lemma sum_pos_insert (l : list Z) (i : nat) (x y : Z) :
  l !! i = Some x ->
  sum_pos (<[i := y]> l) = sum_pos l - Z.max x 0 + Z.max y 0.
Proof.
  revert i. induction l as [|a l IH]; intros [|i] H; simpl in *; try discriminate.
  - injection H as ->.
    destruct (Z.gtb_spec x 0), (Z.gtb_spec y 0); lia.
  - rewrite (IH i H). destruct (Z.gtb_spec a 0); lia.
Qed.

Lemma sum_pos_nonneg (l : list Z) : 0 <= sum_pos l.
Proof. induction l as [|a l IH]; simpl; [lia|]. destruct (Z.gtb_spec a 0); lia. Qed.

Lemma sum_pos_nonneg_list (l : list Z) :
  Forall (fun b => 0 <= b) l -> sum_pos l = sum_Z l.
Proof.
  induction 1 as [|a l Ha _ IH]; simpl; [reflexivity|].
  rewrite IH. destruct (Z.gtb_spec a 0); lia.
Qed.

(** ** One step of run_proc on the whole table *)

Lemma bursts_of_lookup (ps : list pcb) (k : nat) :
  bursts_of ps !! k = burst_left <$> ps !! k.
Proof. unfold bursts_of. apply list_lookup_fmap. Qed.

Lemma bursts_of_step (ps : list pcb) (current used : Z) (pc : pcb) :
  0 <= current -> ps !! Z.to_nat current = Some pc ->
  bursts_of (imap (run_proc_cell current used) ps)
  = <[Z.to_nat current := burst_left pc - used]> (bursts_of ps).
Proof.
  intros Hc0 Hc. apply list_eq. intros k.
  rewrite bursts_of_lookup, list_lookup_imap.
  destruct (decide (k = Z.to_nat current)) as [->|Hne].
  - rewrite list_lookup_insert_eq
      by (unfold bursts_of; rewrite length_fmap; eapply lookup_lt_Some; eauto).
    rewrite Hc. cbn. unfold run_proc_cell.
    destruct (Z.eqb_spec (Z.of_nat (Z.to_nat current)) current); [reflexivity | lia].
  - rewrite list_lookup_insert_ne by auto. rewrite bursts_of_lookup.
    destruct (ps !! k) as [p|]; [|reflexivity]. cbn. unfold run_proc_cell.
    destruct (Z.eqb_spec (Z.of_nat k) current); [lia|].
    unfold waited. destruct (burst_left p >? 0); reflexivity.
Qed.

Lemma int_table_step (ps : list pcb) (current used : Z) (pc : pcb) :
  int_table ps -> ps !! Z.to_nat current = Some pc ->
  0 <= used <= burst_left pc ->
  int_table (imap (run_proc_cell current used) ps).
Proof.
  intros Hint Hc Hused. apply Forall_lookup. intros k q Hq.
  rewrite list_lookup_imap in Hq.
  destruct (ps !! k) as [p|] eqn:Hk; [|discriminate]. cbn in Hq. injection Hq as <-.
  destruct (int_table_lookup _ _ _ Hint Hk) as (Hpid & Hbl & Hw).
  unfold run_proc_cell. destruct (Z.eqb_spec (Z.of_nat k) current) as [Heq|Hne].
  - assert (k = Z.to_nat current) as -> by lia. rewrite Hc in Hk. injection Hk as <-.
    unfold ran, int_pcb; cbn. repeat split; try apply Hpid; try apply Hw;
      unfold int_range, INT_MIN, INT_MAX in *; lia.
  - unfold waited. destruct (burst_left p >? 0); unfold int_pcb; cbn.
    + repeat split; try apply Hpid; try apply Hbl. apply wrap_int_range.
      apply wrap_int_range.
    + repeat split; try apply Hpid; try apply Hbl; apply Hw.
Qed.

(** ** init_procs builds [fresh_table] *)

Lemma init_procs_loop_spec (bursts : list Z) (n : nat) :
  forall (i : nat) (block : list pcb),
  (i + n <= length block)%nat ->
  exists ps : list pcb,
    init_procs_loop n (Z.of_nat i) (Some bursts) (Some block) = Some ps
    /\ length ps = length block
    /\ forall k : nat,
         ps !! k = if decide (i <= k < i + n)%nat
                   then Some (mk_pcb (Z.of_nat k) (default 0 (bursts !! k)) 0)
                   else block !! k.
Proof.
  induction n as [|n IH]; intros i block Hlen.
  - exists block. simpl. repeat split; auto. intros k.
    destruct (decide _); [lia | reflexivity].
  - cbn [init_procs_loop]. unfold set_wait, set_burst_left, set_pid, store, load, load_int.
    rewrite !Nat2Z.id.
    rewrite !list_lookup_insert_eq by (rewrite ?length_insert; lia). cbn.
    rewrite !list_insert_insert_eq.
    replace (Z.of_nat i + 1) with (Z.of_nat (S i)) by lia.
    destruct (IH (S i) (<[i := mk_pcb (Z.of_nat i) (default 0 (bursts !! i)) 0]> block))
      as (ps & Hrun & Hl & Hcell); [rewrite length_insert; lia|].
    exists ps. rewrite length_insert in Hl.
    unfold load_int in Hrun. rewrite Hrun. repeat split; auto.
    intros k. rewrite Hcell. destruct (decide (k = i)) as [->|Hne].
    + rewrite list_lookup_insert_eq by lia.
      repeat destruct (decide _); auto; lia.
    + rewrite list_lookup_insert_ne by auto.
      repeat destruct (decide _); auto; lia.
Qed.

Lemma init_procs_fresh (block : list pcb) (bursts : list Z) :
  bursts <> [] -> length block = length bursts ->
  init_procs (Some block) (Some bursts) (Z.of_nat (length bursts))
  = Some (fresh_table bursts).
Proof.
  intros Hne Hlen. unfold init_procs. cbn [is_null orb].
  destruct (Z.leb_spec (Z.of_nat (length bursts)) 0) as [H0|_].
  { destruct bursts; [congruence | simpl in H0; lia]. }
  cbn [orb]. rewrite Nat2Z.id.
  destruct (init_procs_loop_spec bursts (length bursts) 0 block)
    as (ps & Hrun & Hl & Hcell); [lia|].
  change (Z.of_nat 0) with 0 in Hrun. rewrite Hrun. f_equal.
  apply list_eq. intros k. rewrite Hcell. unfold fresh_table. rewrite list_lookup_imap.
  destruct (decide _) as [Hk|Hk].
  - destruct (lookup_lt_is_Some_2 bursts k) as [b Hb]; [lia|]. rewrite Hb. reflexivity.
  - rewrite (proj2 (lookup_ge_None bursts k)) by lia. cbn.
    apply lookup_ge_None. lia.
Qed.

(** ** The loop of fcfs_run *)

Lemma fcfs_loop_spec (plen : Z) (n : nat) :
  forall (i : nat) (ps : list pcb) (time : Z),
  valid_table ps plen -> int_table ps -> int_range time ->
  (i + n = length ps)%nat ->
  (forall (k : nat) (p : pcb), (k < i)%nat -> ps !! k = Some p -> burst_left p <= 0) ->
  exists ps' : list pcb,
    fcfs_loop n (Z.of_nat i) (Some ps) plen time
    = (Some ps', wrap_int (time + sum_pos (drop i (bursts_of ps))))
    /\ length ps' = length ps
    /\ forall (k : nat) (p : pcb), ps !! k = Some p ->
         ps' !! k
         = Some (fcfs_cell (sum_pos (take (k - i) (drop i (bursts_of ps)))) p).
Proof.
  induction n as [|n IH]; intros i ps time Hvalid Hint Htime Hlen Hdone.
  - exists ps. cbn [fcfs_loop]. split; [|split; [reflexivity|]].
    + rewrite drop_ge by (unfold bursts_of; rewrite length_fmap; lia).
      cbn. rewrite Z.add_0_r, wrap_int_id; auto.
    + intros k p Hk. pose proof (lookup_lt_Some _ _ _ Hk).
      unfold fcfs_cell.
      assert (burst_left p <= 0) by (apply (Hdone k p); [lia | assumption]).
      destruct (Z.gtb_spec (burst_left p) 0); [lia | assumption].
  - destruct (lookup_lt_is_Some_2 ps i) as [pi Hi]; [lia|].
    assert (Hdrop : drop i (bursts_of ps) = burst_left pi :: drop (S i) (bursts_of ps)).
    { apply drop_S. rewrite bursts_of_lookup, Hi. reflexivity. }
    cbn [fcfs_loop]. rewrite (load_Some _ _ _ Hi).
    replace (Z.of_nat i + 1) with (Z.of_nat (S i)) by lia.
    destruct (Z.leb_spec (burst_left pi) 0) as [Hle|Hgt].
    + destruct (IH (S i) ps time Hvalid Hint Htime ltac:(lia)) as (ps' & Hrun & Hl & Hcell).
      { intros k p Hk Hp. destruct (decide (k = i)) as [->|Hne].
        - rewrite Hi in Hp. injection Hp as <-. assumption.
        - apply (Hdone k p); [lia | assumption]. }
      exists ps'. rewrite Hrun, Hdrop. split; [|split; [assumption|]].
      * cbn [sum_pos]. destruct (Z.gtb_spec (burst_left pi) 0); [lia | reflexivity].
      * intros k p Hk. rewrite (Hcell k p Hk). unfold fcfs_cell.
        destruct (Z.gtb_spec (burst_left p) 0) as [Hp|Hp]; [|reflexivity].
        assert (i < k)%nat as Hik.
        { destruct (decide (k < i)%nat) as [Hlt|Hge].
          - specialize (Hdone k p Hlt Hk). lia.
          - destruct (decide (k = i)) as [->|]; [|lia].
            rewrite Hi in Hk. injection Hk as <-. lia. }
        replace (k - i)%nat with (S (k - S i)) by lia. cbn [take sum_pos].
        destruct (Z.gtb_spec (burst_left pi) 0); [lia | reflexivity].
    + assert (Hi' : ps !! Z.to_nat (Z.of_nat i) = Some pi) by (rewrite Nat2Z.id; exact Hi).
      rewrite (run_proc_active ps plen (Z.of_nat i) (burst_left pi) pi)
        by (auto; lia).
      rewrite Z.min_id.
      set (ps1 := imap (run_proc_cell (Z.of_nat i) (burst_left pi)) ps).
      assert (Hb1 : bursts_of ps1 = <[i := 0]> (bursts_of ps)).
      { unfold ps1. rewrite (bursts_of_step ps (Z.of_nat i) (burst_left pi) pi) by (auto; lia).
        rewrite Nat2Z.id, Z.sub_diag. reflexivity. }
      destruct (IH (S i) ps1 (int_add time (burst_left pi))) as (ps' & Hrun & Hl & Hcell).
      { unfold valid_table, ps1 in *. rewrite length_imap. assumption. }
      { unfold ps1. eapply int_table_step; eauto. lia. }
      { apply wrap_int_range. }
      { unfold ps1. rewrite length_imap. lia. }
      { intros k p Hk Hp. unfold ps1 in Hp. rewrite list_lookup_imap in Hp.
        destruct (ps !! k) as [q|] eqn:Hq; [|discriminate]. cbn in Hp. injection Hp as <-.
        unfold run_proc_cell. destruct (Z.eqb_spec (Z.of_nat k) (Z.of_nat i)).
        - assert (k = i) as -> by lia. rewrite Hi in Hq. injection Hq as <-.
          cbn. lia.
        - assert (burst_left q <= 0) by (apply (Hdone k q); [lia | assumption]).
          unfold waited. destruct (Z.gtb_spec (burst_left q) 0); [lia | assumption]. }
      exists ps'. unfold ps1 in Hl. rewrite length_imap in Hl.
      assert (Hd1 : drop (S i) (bursts_of ps1) = drop (S i) (bursts_of ps)).
      { rewrite Hb1. apply drop_insert_lt. lia. }
      rewrite Hd1 in Hrun, Hcell. rewrite Hrun, Hdrop.
      split; [|split; [assumption|]].
      * cbn [sum_pos]. destruct (Z.gtb_spec (burst_left pi) 0); [|lia].
        unfold int_add. rewrite wrap_int_add_l. do 2 f_equal. lia.
      * intros k p Hk.
        assert (Hk1 : ps1 !! k = Some (run_proc_cell (Z.of_nat i) (burst_left pi) k p)).
        { unfold ps1. rewrite list_lookup_imap, Hk. reflexivity. }
        rewrite (Hcell _ _ Hk1). f_equal. unfold run_proc_cell.
        destruct (Z.eqb_spec (Z.of_nat k) (Z.of_nat i)) as [Heq|Hne].
        -- assert (k = i) as -> by lia. rewrite Hi in Hk. injection Hk as <-.
           unfold fcfs_cell, ran. cbn [burst_left pid wait].
           rewrite Z.sub_diag. cbn [Z.gtb Z.compare].
           destruct (Z.gtb_spec (burst_left pi) 0); [|lia].
           rewrite Nat.sub_diag. cbn [take sum_pos]. rewrite Z.add_0_r.
           destruct (int_table_lookup _ _ _ Hint Hi) as (_ & _ & Hw).
           rewrite wrap_int_id by assumption. reflexivity.
        -- unfold waited, fcfs_cell.
           destruct (Z.gtb_spec (burst_left p) 0) as [Hp|Hp].
           ++ cbn [burst_left pid wait]. destruct (Z.gtb_spec (burst_left p) 0); [|lia].
              assert (i < k)%nat as Hik.
              { destruct (decide (k < i)%nat) as [Hlt|Hge]; [|lia].
                specialize (Hdone k p Hlt Hk). lia. }
              replace (k - i)%nat with (S (k - S i)) by lia. cbn [take sum_pos].
              destruct (Z.gtb_spec (burst_left pi) 0); [|lia].
              unfold int_add. rewrite wrap_int_add_l. do 2 f_equal. lia.
           ++ destruct (Z.gtb_spec (burst_left p) 0); [lia | reflexivity].
Qed.

(** ** The three scans of rr_next *)

Lemma rr_any_remaining_spec (procs : option (list pcb)) (n : nat) :
  forall i : Z,
  rr_any_remaining n i procs = true
  <-> exists j : Z, i <= j < i + Z.of_nat n /\ burst_left (load procs j) > 0.
Proof.
  induction n as [|n IH]; intros i.
  - simpl. split; [discriminate | intros (j & Hj & _); lia].
  - cbn [rr_any_remaining].
    destruct (Z.gtb_spec (burst_left (load procs i)) 0) as [Hpos|Hle].
    + split; [|reflexivity]. intros _. exists i. split; lia.
    + rewrite IH. split; intros (j & Hj & Hb); exists j.
      * split; [lia | assumption].
      * split; [|assumption]. assert (j <> i) by (intros ->; lia). lia.
Qed.

Lemma rr_first_spec (procs : option (list pcb)) (n : nat) :
  forall i : Z,
  (rr_first n i procs = -1
   /\ forall j : Z, i <= j < i + Z.of_nat n -> burst_left (load procs j) <= 0)
  \/ (i <= rr_first n i procs < i + Z.of_nat n
      /\ burst_left (load procs (rr_first n i procs)) > 0
      /\ forall j : Z, i <= j < rr_first n i procs -> burst_left (load procs j) <= 0).
Proof.
  induction n as [|n IH]; intros i.
  - left. simpl. split; [reflexivity | intros; lia].
  - cbn [rr_first].
    destruct (Z.gtb_spec (burst_left (load procs i)) 0) as [Hpos|Hle].
    + right. repeat split; try lia.
    + destruct (IH (i + 1)) as [[Hr Hall]|(Hr & Hpos & Hall)].
      * left. split; [assumption|]. intros j Hj.
        destruct (Z.eq_dec j i) as [->|Hne]; [assumption | apply Hall; lia].
      * right. repeat split; try lia. intros j Hj.
        destruct (Z.eq_dec j i) as [->|Hne]; [assumption | apply Hall; lia].
Qed.

Lemma mod_below (a n : Z) : 0 < n -> - n <= a < 0 -> a mod n = a + n.
Proof.
  intros Hn Ha. rewrite <- (Z_mod_plus_full a 1 n).
  rewrite Z.mod_small; lia.
Qed.

Lemma cyc_step (plen current i : Z) :
  0 <= i < plen -> 0 <= current < plen -> i <> current ->
  0 <= (i + 1) mod plen < plen
  /\ (current - (i + 1) mod plen) mod plen = (current - i) mod plen - 1.
Proof.
  intros Hi Hc Hne. split; [apply Z.mod_pos_bound; lia|].
  rewrite Zminus_mod_idemp_r.
  destruct (Z_lt_le_dec i current).
  - rewrite !Z.mod_small by lia. lia.
  - rewrite !mod_below by lia. lia.
Qed.

Lemma rr_scan_spec (procs : option (list pcb)) (plen current : Z) (fuel : nat) :
  0 <= current < plen ->
  forall i : Z, 0 <= i < plen ->
  (current - i) mod plen < Z.of_nat fuel ->
  (rr_scan fuel procs plen current i = Some Wrapped
   /\ forall e : Z, 0 <= e < (current - i) mod plen ->
        burst_left (load procs ((i + e) mod plen)) <= 0)
  \/ (exists e : Z,
        0 <= e < (current - i) mod plen
        /\ rr_scan fuel procs plen current i = Some (Returned ((i + e) mod plen))
        /\ burst_left (load procs ((i + e) mod plen)) > 0
        /\ forall e' : Z, 0 <= e' < e ->
             burst_left (load procs ((i + e') mod plen)) <= 0).
Proof.
  intros Hc. induction fuel as [|fuel IH]; intros i Hi Hfuel.
  - pose proof (Z.mod_pos_bound (current - i) plen). lia.
  - cbn [rr_scan]. destruct (Z.eqb_spec i current) as [->|Hne]; cbn [negb].
    + left. split; [reflexivity|]. rewrite Z.sub_diag, Z.mod_0_l by lia. intros; lia.
    + destruct (cyc_step plen current i Hi Hc Hne) as [Hi' Hd].
      assert (Hd0 : 0 < (current - i) mod plen).
      { destruct (Z_lt_le_dec i current).
        - rewrite Z.mod_small by lia. lia.
        - rewrite mod_below by lia. lia. }
      destruct (Z.gtb_spec (burst_left (load procs i)) 0) as [Hpos|Hle].
      * right. exists 0. rewrite Z.add_0_r, (Z.mod_small i plen) by lia.
        repeat split; try lia.
      * rewrite Z.rem_mod_nonneg by lia.
        assert (Hfuel' : (current - (i + 1) mod plen) mod plen < Z.of_nat fuel).
        { rewrite Hd. revert Hfuel. generalize ((current - i) mod plen). lia. }
        destruct (IH ((i + 1) mod plen) Hi' Hfuel')
          as [[Hr Hall]|(e & He & Hr & Hpos & Hall)].
        -- left. split; [assumption|]. intros e He.
           destruct (Z.eq_dec e 0) as [->|He0].
           ++ rewrite Z.add_0_r, (Z.mod_small i plen) by lia. assumption.
           ++ specialize (Hall (e - 1) ltac:(lia)).
              rewrite Zplus_mod_idemp_l in Hall.
              replace (i + 1 + (e - 1)) with (i + e) in Hall by lia. assumption.
        -- right. exists (e + 1). rewrite Zplus_mod_idemp_l in Hr, Hpos.
           replace (i + 1 + e) with (i + (e + 1)) in Hr, Hpos by lia.
           repeat split; try lia; try assumption. intros e' He'.
           destruct (Z.eq_dec e' 0) as [->|He0].
           ++ rewrite Z.add_0_r, (Z.mod_small i plen) by lia. assumption.
           ++ specialize (Hall (e' - 1) ltac:(lia)).
              rewrite Zplus_mod_idemp_l in Hall.
              replace (i + 1 + (e' - 1)) with (i + e') in Hall by lia. assumption.
Qed.

(** rr_next always returns: the fuel of its scan never runs out. *)
Lemma rr_next_returns (current : Z) (procs : option (list pcb)) (plen : Z) :
  exists r : Z, rr_next current procs plen = Some r.
Proof.
  unfold rr_next. destruct (is_null procs || (plen <=? 0)) eqn:Hg; [eauto|].
  destruct (negb _); [eauto|].
  destruct ((current <? 0) || (current >=? plen)) eqn:Hr; [eauto|].
  apply orb_false_iff in Hg as [_ Hp]. apply orb_false_iff in Hr as [Hc0 Hc1].
  apply Z.leb_gt in Hp. apply Z.ltb_ge in Hc0.
  destruct (Z.geb_spec current plen) as [|Hc2]; [discriminate|].
  assert (Hi : 0 <= Z.rem (current + 1) plen < plen).
  { rewrite Z.rem_mod_nonneg by lia. apply Z.mod_pos_bound. lia. }
  destruct (rr_scan_spec procs plen current (Z.to_nat plen) ltac:(lia) _ Hi)
    as [[Hs _]|(e & _ & Hs & _)].
  { pose proof (Z.mod_pos_bound (current - Z.rem (current + 1) plen) plen). lia. }
  - rewrite Hs. destruct (_ >? _); eauto.
  - rewrite Hs. eauto.
Qed.

(** ** Cyclic distance *)

Lemma cyc_dist_range (plen previous i : Z) :
  0 < plen -> 0 <= cyc_dist plen previous i < plen.
Proof. intros Hp. unfold cyc_dist. apply Z.mod_pos_bound. assumption. Qed.

Lemma cyc_dist_reach (plen previous j : Z) :
  0 < plen -> 0 <= j < plen ->
  ((previous + 1) mod plen + cyc_dist plen previous j) mod plen = j.
Proof.
  intros Hp Hj. unfold cyc_dist. rewrite <- Zplus_mod.
  replace (previous + 1 + (j - (previous + 1))) with j by lia.
  apply Z.mod_small. assumption.
Qed.

Lemma cyc_dist_offset (plen previous e : Z) :
  0 < plen -> 0 <= e < plen ->
  cyc_dist plen previous (((previous + 1) mod plen + e) mod plen) = e.
Proof.
  intros Hp He. unfold cyc_dist.
  rewrite Zminus_mod_idemp_l.
  replace ((previous + 1) mod plen + e - (previous + 1))
    with ((previous + 1) mod plen + (e - (previous + 1))) by lia.
  rewrite Zplus_mod_idemp_l.
  replace (previous + 1 + (e - (previous + 1))) with e by lia.
  apply Z.mod_small. assumption.
Qed.

Lemma cyc_dist_self (plen previous : Z) :
  0 < plen -> cyc_dist plen previous previous = plen - 1.
Proof.
  intros Hp. unfold cyc_dist.
  replace (previous - (previous + 1)) with (-1) by lia.
  rewrite mod_below by lia. lia.
Qed.

Lemma cyc_dist_last (plen previous j : Z) :
  0 < plen -> 0 <= previous < plen -> 0 <= j < plen ->
  cyc_dist plen previous j = plen - 1 -> j = previous.
Proof.
  intros Hp Hc Hj Hd. rewrite <- (cyc_dist_reach plen previous j Hp Hj), Hd.
  rewrite Zplus_mod_idemp_l.
  replace (previous + 1 + (plen - 1)) with (previous + 1 * plen) by lia.
  rewrite Z_mod_plus_full. apply Z.mod_small. assumption.
Qed.

(** ** rr_next, case by case *)

Lemma rr_next_cases (current : Z) (procs : option (list pcb)) (plen : Z) :
  exists r : Z,
    rr_next current procs plen = Some r
    /\ ((r = -1 /\ forall j : Z, 0 <= j < plen -> burst_left (load procs j) <= 0)
        \/ (0 <= r < plen /\ burst_left (load procs r) > 0
            /\ rr_choice procs plen current r)).
Proof.
  unfold rr_next. destruct (is_null procs || (plen <=? 0)) eqn:Hg.
  { exists (-1). split; [reflexivity|]. left. split; [reflexivity|]. intros j Hj.
    apply orb_true_iff in Hg as [Hn|Hp].
    - destruct procs; [discriminate|]. simpl. lia.
    - apply Z.leb_le in Hp. lia. }
  apply orb_false_iff in Hg as [_ Hp]. apply Z.leb_gt in Hp.
  destruct (rr_any_remaining (Z.to_nat plen) 0 procs) eqn:Hany; cbn [negb].
  2:{ exists (-1). split; [reflexivity|]. left. split; [reflexivity|]. intros j Hj.
      destruct (Z.gtb_spec (burst_left (load procs j)) 0) as [Hpos|]; [|lia].
      assert (rr_any_remaining (Z.to_nat plen) 0 procs = true); [|congruence].
      apply rr_any_remaining_spec. exists j. split; lia. }
  apply rr_any_remaining_spec in Hany as (j0 & Hj0 & Hpos0).
  rewrite Z2Nat.id in Hj0 by lia.
  destruct ((current <? 0) || (current >=? plen)) eqn:Hr.
  { exists (rr_first (Z.to_nat plen) 0 procs). split; [reflexivity|].
    assert (Hout : ~ 0 <= current < plen).
    { apply orb_true_iff in Hr as [H|H].
      - apply Z.ltb_lt in H. lia.
      - destruct (Z.geb_spec current plen); [lia | discriminate]. }
    destruct (rr_first_spec procs (Z.to_nat plen) 0) as [[_ Hall]|(Hrange & Hpos & Hall)];
      rewrite Z2Nat.id in * by lia.
    - specialize (Hall j0 ltac:(lia)). lia.
    - right. repeat split; try lia. left. split; assumption. }
  apply orb_false_iff in Hr as [Hc0 Hc1]. apply Z.ltb_ge in Hc0.
  destruct (Z.geb_spec current plen) as [|Hc2]; [discriminate|]. clear Hc1.
  assert (Hc : 0 <= current < plen) by lia.
  rewrite Z.rem_mod_nonneg by lia.
  assert (Hi : 0 <= (current + 1) mod plen < plen) by (apply Z.mod_pos_bound; lia).
  assert (Hd : (current - (current + 1) mod plen) mod plen = plen - 1).
  { rewrite Zminus_mod_idemp_r.
    replace (current - (current + 1)) with (-1) by lia.
    rewrite mod_below by lia. lia. }
  destruct (rr_scan_spec procs plen current (Z.to_nat plen) Hc _ Hi)
    as [[Hs Hall]|(e & He & Hs & Hpos & Hall)]; try (rewrite Hd; lia);
    rewrite Hd in *; rewrite Hs.
  - assert (Hothers : forall j : Z, 0 <= j < plen -> j <> current ->
                        burst_left (load procs j) <= 0).
    { intros j Hj Hne. pose proof (cyc_dist_range plen current j Hp) as Hrange.
      rewrite <- (cyc_dist_reach plen current j Hp Hj). apply Hall.
      split; [lia|].
      destruct (Z.eq_dec (cyc_dist plen current j) (plen - 1)) as [Heq|]; [|lia].
      exfalso. apply Hne. eapply cyc_dist_last; eauto. }
    destruct (Z.gtb_spec (burst_left (load procs current)) 0) as [Hcur|Hcur].
    + exists current. split; [reflexivity|]. right. repeat split; try lia.
      right. right. repeat split; try lia. assumption.
    + exfalso. destruct (Z.eq_dec j0 current) as [->|Hne]; [lia|].
      specialize (Hothers j0 ltac:(lia) Hne). lia.
  - set (r := ((current + 1) mod plen + e) mod plen) in *.
    assert (Hr : 0 <= r < plen) by (apply Z.mod_pos_bound; lia).
    assert (Hdr : cyc_dist plen current r = e) by (apply cyc_dist_offset; lia).
    exists r. split; [reflexivity|]. right. repeat split; try lia.
    right. left. repeat split; try lia.
    + intros ->. rewrite cyc_dist_self in Hdr by lia. lia.
    + intros j Hj Hne Hnr Hposj. rewrite Hdr.
      pose proof (cyc_dist_range plen current j Hp) as Hrange.
      pose proof (cyc_dist_reach plen current j Hp Hj) as Hreach.
      destruct (Z_lt_le_dec (cyc_dist plen current j) e) as [Hlt|Hge].
      * specialize (Hall _ (conj (proj1 Hrange) Hlt)). rewrite Hreach in Hall. lia.
      * destruct (Z.eq_dec (cyc_dist plen current j) e) as [Heq|]; [|lia].
        exfalso. apply Hnr. rewrite <- Hreach, Heq. reflexivity.
Qed.

(** ** One iteration of rr_run, and the loop *)

Lemma valid_load_lookup (ps : list pcb) (plen j : Z) :
  valid_table ps plen -> 0 <= j < plen ->
  exists p : pcb, ps !! Z.to_nat j = Some p /\ load (Some ps) j = p.
Proof.
  unfold valid_table. intros -> Hj.
  destruct (lookup_in_range ps j Hj) as [p Hp]. exists p. split; [assumption|].
  apply load_Some_Z. assumption.
Qed.

Lemma sum_pos_all_done (l : list Z) :
  (forall (k : nat) (b : Z), l !! k = Some b -> b <= 0) -> sum_pos l = 0.
Proof.
  induction l as [|a l IH]; intros H; simpl; [reflexivity|].
  pose proof (H O a eq_refl). destruct (Z.gtb_spec a 0); [lia|].
  apply IH. intros k b Hk. apply (H (S k) b Hk).
Qed.

Lemma rr_iter_spec (ps : list pcb) (plen quantum time current : Z) :
  valid_table ps plen -> int_table ps -> 0 < quantum ->
  (rr_iter (mk_rr_state (Some ps) time current) plen quantum
   = Some (Break (mk_rr_state (Some ps) time (-1)))
   /\ rr_next current (Some ps) plen = Some (-1)
   /\ forall (k : nat) (p : pcb), ps !! k = Some p -> burst_left p <= 0)
  \/ (exists (r : Z) (pr : pcb),
        0 <= r < plen /\ ps !! Z.to_nat r = Some pr /\ 0 < burst_left pr
        /\ rr_next current (Some ps) plen = Some r
        /\ rr_iter (mk_rr_state (Some ps) time current) plen quantum
           = Some (Again (mk_rr_state
                            (Some (imap (run_proc_cell r (Z.min quantum (burst_left pr))) ps))
                            (int_add time (Z.min quantum (burst_left pr))) r))).
Proof.
  intros Hvalid Hint Hq. unfold rr_iter. cbn [rr_procs rr_time rr_current].
  destruct (rr_next_cases current (Some ps) plen)
    as (r & Hnext & [[-> Hall]|(Hr & Hpos & _)]); rewrite Hnext.
  - left. cbn. repeat split. intros k p Hk.
    pose proof (lookup_lt_Some _ _ _ Hk) as Hlt.
    specialize (Hall (Z.of_nat k)). rewrite (load_Some _ _ _ Hk) in Hall.
    apply Hall. unfold valid_table in Hvalid. lia.
  - right. destruct (valid_load_lookup ps plen r Hvalid Hr) as (pr & Hpr & Hload).
    rewrite Hload in *. exists r, pr.
    destruct (Z.eqb_spec r (-1)); [lia|].
    destruct (Z.leb_spec (burst_left pr) 0); [lia|].
    assert (Hmin : (if burst_left pr <? quantum then burst_left pr else quantum)
                   = Z.min quantum (burst_left pr)).
    { destruct (Z.ltb_spec (burst_left pr) quantum); lia. }
    rewrite Hmin.
    rewrite (run_proc_active ps plen r (Z.min quantum (burst_left pr)) pr)
      by (auto; lia).
    replace (Z.min (Z.min quantum (burst_left pr)) (burst_left pr))
      with (Z.min quantum (burst_left pr)) by lia.
    repeat split; auto; lia.
Qed.

Lemma rr_loop_spec (plen quantum : Z) (fuel : nat) :
  0 < quantum ->
  forall (ps : list pcb) (time current : Z),
  valid_table ps plen -> int_table ps -> int_range time ->
  sum_pos (bursts_of ps) < Z.of_nat fuel ->
  exists ps' : list pcb,
    rr_loop fuel (mk_rr_state (Some ps) time current) plen quantum
    = Some (mk_rr_state (Some ps') (wrap_int (time + sum_pos (bursts_of ps))) (-1))
    /\ length ps' = length ps
    /\ forall (k : nat) (p : pcb), ps !! k = Some p ->
         exists p' : pcb, ps' !! k = Some p' /\ rr_done p p'.
Proof.
  intros Hq. induction fuel as [|fuel IH]; intros ps time current Hvalid Hint Htime Hfuel.
  - pose proof (sum_pos_nonneg (bursts_of ps)). lia.
  - cbn [rr_loop].
    destruct (rr_iter_spec ps plen quantum time current Hvalid Hint Hq)
      as [(Hiter & _ & Hall)|(r & pr & Hr & Hpr & Hpos & _ & Hiter)]; rewrite Hiter.
    + exists ps. rewrite sum_pos_all_done.
      * rewrite Z.add_0_r, wrap_int_id by assumption. repeat split.
        intros k p Hk. exists p. split; [assumption|].
        specialize (Hall k p Hk). unfold rr_done. repeat split; lia.
      * intros k b Hk. rewrite bursts_of_lookup in Hk.
        destruct (ps !! k) as [p|] eqn:Hp; [|discriminate]. injection Hk as <-.
        eapply Hall; eauto.
    + set (amount := Z.min quantum (burst_left pr)) in *.
      set (ps1 := imap (run_proc_cell r amount) ps).
      assert (Hsum : sum_pos (bursts_of ps1) = sum_pos (bursts_of ps) - amount).
      { unfold ps1. rewrite (bursts_of_step ps r amount pr) by (auto; lia).
        rewrite (sum_pos_insert _ _ (burst_left pr))
          by (rewrite bursts_of_lookup, Hpr; reflexivity).
        lia. }
      destruct (IH ps1 (int_add time amount) r) as (ps' & Hrun & Hlen & Hcell).
      { unfold valid_table, ps1 in *. rewrite length_imap. assumption. }
      { unfold ps1. eapply int_table_step; eauto. lia. }
      { apply wrap_int_range. }
      { rewrite Hsum. lia. }
      exists ps'. rewrite Hrun, Hsum. unfold ps1 in Hlen. rewrite length_imap in Hlen.
      split; [|split; [assumption|]].
      * unfold int_add. rewrite wrap_int_add_l. do 3 f_equal. lia.
      * intros k p Hk.
        destruct (Hcell k (run_proc_cell r amount k p)) as (p' & Hp' & Hpid & Hbl & Hsame).
        { unfold ps1. rewrite list_lookup_imap, Hk. reflexivity. }
        exists p'. split; [assumption|]. revert Hpid Hbl Hsame.
        unfold rr_done, run_proc_cell.
        destruct (Z.eqb_spec (Z.of_nat k) r) as [Heq|Hne].
        -- assert (k = Z.to_nat r) as -> by lia. rewrite Hpr in Hk. injection Hk as <-.
           unfold ran. cbn [pid burst_left wait]. intros Hpid Hbl Hsame.
           repeat split; try lia.
        -- unfold waited. destruct (Z.gtb_spec (burst_left p) 0);
             cbn [pid burst_left wait]; intros Hpid Hbl Hsame;
             repeat split; try lia. auto.
Qed.

Lemma rr_loop_more_fuel (plen quantum : Z) (n : nat) :
  forall (m : nat) (s s' : rr_state),
  rr_loop n s plen quantum = Some s' -> (n <= m)%nat ->
  rr_loop m s plen quantum = Some s'.
Proof.
  induction n as [|n IH]; intros m s s' Hrun Hm; [discriminate|].
  destruct m as [|m]; [lia|]. cbn [rr_loop] in *.
  destruct (rr_iter s plen quantum) as [[s1|s1]|]; try assumption.
  apply IH; [assumption | lia].
Qed.

Lemma rr_run_spec (ps : list pcb) (plen quantum : Z) :
  valid_table ps plen -> int_table ps -> 0 < plen -> 0 < quantum ->
  exists ps' : list pcb,
    rr_run_returns (Some ps) plen quantum
      (Some ps', wrap_int (sum_pos (bursts_of ps)))
    /\ length ps' = length ps
    /\ forall (k : nat) (p : pcb), ps !! k = Some p ->
         exists p' : pcb, ps' !! k = Some p' /\ rr_done p p'.
Proof.
  intros Hvalid Hint Hp Hq.
  destruct (rr_loop_spec plen quantum (S (Z.to_nat (sum_pos (bursts_of ps)))) Hq
              ps 0 (-1) Hvalid Hint) as (ps' & Hrun & Hlen & Hcell).
  { unfold int_range, INT_MIN, INT_MAX. lia. }
  { pose proof (sum_pos_nonneg (bursts_of ps)). lia. }
  exists ps'. split; [|split; assumption].
  exists (S (Z.to_nat (sum_pos (bursts_of ps)))). intros m Hm.
  unfold rr_run. cbn [is_null orb].
  destruct (Z.leb_spec plen 0); [lia|]. destruct (Z.leb_spec quantum 0); [lia|].
  cbn [orb]. rewrite (rr_loop_more_fuel _ _ _ m _ _ Hrun Hm). cbn.
  rewrite Z.add_0_l. reflexivity.
Qed.

(** ** Whole runs *)

Lemma fcfs_run_spec (ps : list pcb) (plen : Z) :
  valid_table ps plen -> int_table ps ->
  exists ps' : list pcb,
    fcfs_run (Some ps) plen = (Some ps', wrap_int (sum_pos (bursts_of ps)))
    /\ length ps' = length ps
    /\ forall (k : nat) (p : pcb), ps !! k = Some p ->
         ps' !! k = Some (fcfs_cell (sum_pos (take k (bursts_of ps))) p).
Proof.
  intros Hvalid Hint. unfold fcfs_run. cbn [is_null orb].
  destruct (Z.leb_spec plen 0) as [Hp|Hp].
  - unfold valid_table in Hvalid. destruct ps; [|simpl in Hvalid; lia].
    exists []. repeat split. intros k p Hk. destruct k; discriminate.
  - destruct (fcfs_loop_spec plen (Z.to_nat plen) 0 ps 0 Hvalid Hint)
      as (ps' & Hrun & Hlen & Hcell).
    + unfold int_range, INT_MIN, INT_MAX. lia.
    + unfold valid_table in Hvalid. lia.
    + intros; lia.
    + exists ps'. change (Z.of_nat 0) with 0 in Hrun. rewrite Hrun.
      rewrite drop_0, Z.add_0_l. split; [reflexivity|]. split; [assumption|].
      intros k p Hk. rewrite (Hcell k p Hk), drop_0, Nat.sub_0_r. reflexivity.
Qed.

Lemma run_proc_cases (ps : list pcb) (plen current amount : Z) :
  valid_table ps plen -> int_table ps ->
  (run_proc (Some ps) plen current amount = Some ps
   /\ time_advanced (Some ps) plen current amount = 0)
  \/ (exists pc : pcb,
        0 <= current < plen /\ ps !! Z.to_nat current = Some pc
        /\ 0 < burst_left pc /\ 0 < amount
        /\ time_advanced (Some ps) plen current amount = Z.min amount (burst_left pc)
        /\ run_proc (Some ps) plen current amount
           = Some (imap (run_proc_cell current (Z.min amount (burst_left pc))) ps)).
Proof.
  intros Hvalid Hint.
  destruct (Z_le_gt_dec plen 0) as [Hp|Hp].
  { left. split; [apply run_proc_guard; auto|].
    unfold time_advanced. cbn [is_null orb].
    destruct (Z.leb_spec plen 0); [reflexivity | lia]. }
  destruct (Z_lt_le_dec current 0) as [Hc0|Hc0].
  { left. split; [apply run_proc_guard; auto|].
    unfold time_advanced. cbn [is_null orb].
    destruct (plen <=? 0); [reflexivity|].
    destruct (Z.ltb_spec current 0); [reflexivity | lia]. }
  destruct (Z_le_gt_dec plen current) as [Hc1|Hc1].
  { left. split; [apply run_proc_guard; right; right; right; left; lia|].
    unfold time_advanced. cbn [is_null orb].
    destruct (plen <=? 0), (current <? 0); try reflexivity.
    destruct (Z.geb_spec current plen); [reflexivity | lia]. }
  destruct (Z_le_gt_dec amount 0) as [Ha|Ha].
  { left. split; [apply run_proc_guard; auto 6|].
    unfold time_advanced. cbn [is_null orb].
    destruct (plen <=? 0), (current <? 0), (current >=? plen); try reflexivity.
    destruct (Z.leb_spec amount 0); [reflexivity | lia]. }
  destruct (valid_load_lookup ps plen current Hvalid ltac:(lia)) as (pc & Hpc & Hload).
  assert (Hta : time_advanced (Some ps) plen current amount
                = if burst_left pc <=? 0 then 0 else Z.min amount (burst_left pc)).
  { unfold time_advanced. cbn [is_null orb].
    destruct (Z.leb_spec plen 0); [lia|]. destruct (Z.ltb_spec current 0); [lia|].
    destruct (Z.geb_spec current plen); [lia|]. destruct (Z.leb_spec amount 0); [lia|].
    cbn [orb]. rewrite Hload. reflexivity. }
  rewrite Hta. destruct (Z.leb_spec (burst_left pc) 0) as [Hb|Hb].
  - left. split; [|reflexivity]. apply run_proc_finished. rewrite Hload. assumption.
  - right. exists pc. repeat split; try lia; try assumption.
    apply run_proc_active; auto; lia.
Qed.

(** ** The table of init_procs *)

Lemma fresh_table_lookup (bursts : list Z) (k : nat) :
  fresh_table bursts !! k = (fun b => mk_pcb (Z.of_nat k) b 0) <$> bursts !! k.
Proof. unfold fresh_table. apply list_lookup_imap. Qed.

Lemma fresh_table_bursts (bursts : list Z) : bursts_of (fresh_table bursts) = bursts.
Proof.
  apply list_eq. intros k. rewrite bursts_of_lookup, fresh_table_lookup.
  destruct (bursts !! k); reflexivity.
Qed.

Lemma fresh_table_valid (bursts : list Z) :
  valid_table (fresh_table bursts) (Z.of_nat (length bursts)).
Proof. unfold valid_table, fresh_table. rewrite length_imap. reflexivity. Qed.

Lemma fresh_table_int (bursts : list Z) :
  Forall int_range bursts -> Z.of_nat (length bursts) <= INT_MAX ->
  int_table (fresh_table bursts).
Proof.
  intros Hb Hlen. apply Forall_lookup. intros k p Hk.
  rewrite fresh_table_lookup in Hk.
  destruct (bursts !! k) as [b|] eqn:Hbk; [|discriminate]. cbn in Hk. injection Hk as <-.
  pose proof (lookup_lt_Some _ _ _ Hbk).
  pose proof (proj1 (Forall_lookup _ _) Hb k b Hbk) as Hr.
  unfold int_pcb; cbn. unfold int_range, INT_MIN, INT_MAX in *. lia.
Qed.

(** * The claims *)

(** ** Runs on a freshly built table *)

(** C1, counterexample: with the single burst [-3], both fcfs_run and rr_run
    return with [burst_left = -3] in the table, not [0]. *)
Lemma negative_burst_left_behind :
  let procs := init_procs (Some [pcb0]) (Some [-3]) 1 in
  (exists (ps' : list pcb) (t : Z),
     fcfs_run procs 1 = (Some ps', t)
     /\ ~ (forall (k : nat) (p : pcb), ps' !! k = Some p -> burst_left p = 0))
  /\ (exists (ps' : list pcb) (t : Z),
        rr_run_returns procs 1 2 (Some ps', t)
        /\ ~ (forall (k : nat) (p : pcb), ps' !! k = Some p -> burst_left p = 0)).
Proof.
  split.
  - exists [mk_pcb 0 (-3) 0], 0. split; [reflexivity|].
    intros H. specialize (H O _ eq_refl). discriminate.
  - exists [mk_pcb 0 (-3) 0], 0. split.
    + exists 1%nat. intros [|m] Hm; [lia | reflexivity].
    + intros H. specialize (H O _ eq_refl). discriminate.
Qed.

(** C1, as amended: for every non-empty sequence of [int] bursts, fcfs_run
    (and rr_run with [quantum > 0]) returns, and afterwards every PCB whose
    input burst was non-negative has [burst_left = 0], while a PCB whose input
    burst was negative still has that burst. *)
Theorem runs_finish_every_burst (block : list pcb) (bursts : list Z) (quantum : Z) :
  bursts <> [] -> length block = length bursts ->
  Forall int_range bursts -> Z.of_nat (length bursts) <= INT_MAX ->
  0 < quantum ->
  let plen := Z.of_nat (length bursts) in
  let procs := init_procs (Some block) (Some bursts) plen in
  (exists (ps' : list pcb) (t : Z),
     fcfs_run procs plen = (Some ps', t)
     /\ length ps' = length bursts
     /\ forall (k : nat) (b : Z), bursts !! k = Some b ->
          exists p : pcb, ps' !! k = Some p
            /\ (0 <= b -> burst_left p = 0) /\ (b < 0 -> burst_left p = b))
  /\ (exists (ps' : list pcb) (t : Z),
        rr_run_returns procs plen quantum (Some ps', t)
        /\ length ps' = length bursts
        /\ forall (k : nat) (b : Z), bursts !! k = Some b ->
             exists p : pcb, ps' !! k = Some p
               /\ (0 <= b -> burst_left p = 0) /\ (b < 0 -> burst_left p = b)).
Proof.
  intros Hne Hblock Hint Hlen Hq plen procs.
  unfold procs, plen. rewrite (init_procs_fresh block bursts Hne Hblock).
  pose proof (fresh_table_valid bursts) as Hvalid.
  pose proof (fresh_table_int bursts Hint Hlen) as Hitab.
  assert (Hcell : forall (k : nat) (b : Z), bursts !! k = Some b ->
            fresh_table bursts !! k = Some (mk_pcb (Z.of_nat k) b 0)).
  { intros k b Hk. rewrite fresh_table_lookup, Hk. reflexivity. }
  split.
  - destruct (fcfs_run_spec _ _ Hvalid Hitab) as (ps' & Hrun & Hl & Hfin).
    exists ps', (wrap_int (sum_pos (bursts_of (fresh_table bursts)))).
    split; [assumption|]. split.
    { rewrite Hl. unfold fresh_table. apply length_imap. }
    intros k b Hk. eexists. split; [apply Hfin, Hcell, Hk|].
    unfold fcfs_cell. cbn [burst_left].
    destruct (Z.gtb_spec b 0); cbn [burst_left]; split; intros; lia.
  - destruct (rr_run_spec _ _ quantum Hvalid Hitab) as (ps' & Hrun & Hl & Hfin);
      [destruct bursts; [congruence | simpl; lia] | assumption |].
    exists ps', (wrap_int (sum_pos (bursts_of (fresh_table bursts)))).
    split; [assumption|]. split.
    { rewrite Hl. unfold fresh_table. apply length_imap. }
    intros k b Hk. destruct (Hfin _ _ (Hcell k b Hk)) as (p' & Hp' & _ & Hbl & _).
    exists p'. split; [assumption|]. cbn [burst_left] in Hbl. split; intros; lia.
Qed.

Lemma runs_finish_every_burst_witness :
  let procs := init_procs (Some [pcb0; pcb0; pcb0]) (Some [5; 3; 8]) 3 in
  (exists (ps' : list pcb) (t : Z),
     fcfs_run procs 3 = (Some ps', t)
     /\ length ps' = 3%nat
     /\ forall (k : nat) (b : Z), [5; 3; 8] !! k = Some b ->
          exists p : pcb, ps' !! k = Some p
            /\ (0 <= b -> burst_left p = 0) /\ (b < 0 -> burst_left p = b))
  /\ (exists (ps' : list pcb) (t : Z),
        rr_run_returns procs 3 4 (Some ps', t)
        /\ length ps' = 3%nat
        /\ forall (k : nat) (b : Z), [5; 3; 8] !! k = Some b ->
             exists p : pcb, ps' !! k = Some p
               /\ (0 <= b -> burst_left p = 0) /\ (b < 0 -> burst_left p = b)).
Proof.
  apply (runs_finish_every_burst [pcb0; pcb0; pcb0] [5; 3; 8] 4).
  - discriminate.
  - reflexivity.
  - int_table_tac.
  - unfold INT_MAX. simpl. lia.
  - lia.
Defined.

(** C2, counterexample: with the bursts [-3; 5] both runs return [5], while
    the sum of the input bursts is [2]. *)
Lemma negative_burst_not_counted :
  let procs := init_procs (Some [pcb0; pcb0]) (Some [-3; 5]) 2 in
  snd (fcfs_run procs 2) <> sum_Z [-3; 5]
  /\ exists (ps' : list pcb) (t : Z),
       rr_run_returns procs 2 4 (Some ps', t) /\ t <> sum_Z [-3; 5].
Proof.
  split.
  - discriminate.
  - exists [mk_pcb 0 (-3) 0; mk_pcb 1 0 0], 5. split; [|discriminate].
    exists 3%nat. intros m Hm.
    do 3 (destruct m as [|m]; [lia|]). reflexivity.
Qed.

(** C2, as amended: for every non-empty sequence of [int] bursts, the [int]
    returned by fcfs_run and the one returned by rr_run (with [quantum > 0])
    both equal the sum of the positive input bursts in [int] arithmetic (a
    burst [<= 0] is skipped and adds nothing); when that sum fits in an [int]
    it is returned exactly, and when moreover no burst is negative it is the
    sum of the input bursts. *)
Theorem runs_return_positive_total (block : list pcb) (bursts : list Z) (quantum : Z) :
  bursts <> [] -> length block = length bursts ->
  Forall int_range bursts -> Z.of_nat (length bursts) <= INT_MAX ->
  0 < quantum ->
  let plen := Z.of_nat (length bursts) in
  let procs := init_procs (Some block) (Some bursts) plen in
  exists t : Z,
    snd (fcfs_run procs plen) = t
    /\ (exists ps' : list pcb, rr_run_returns procs plen quantum (Some ps', t))
    /\ t = wrap_int (sum_pos bursts)
    /\ (sum_pos bursts <= INT_MAX -> t = sum_pos bursts)
    /\ (Forall (fun b => 0 <= b) bursts -> sum_Z bursts <= INT_MAX -> t = sum_Z bursts).
Proof.
  intros Hne Hblock Hint Hlen Hq plen procs.
  unfold procs, plen. rewrite (init_procs_fresh block bursts Hne Hblock).
  pose proof (fresh_table_valid bursts) as Hvalid.
  pose proof (fresh_table_int bursts Hint Hlen) as Hitab.
  exists (wrap_int (sum_pos bursts)).
  destruct (fcfs_run_spec _ _ Hvalid Hitab) as (ps1 & Hrun1 & _).
  destruct (rr_run_spec _ _ quantum Hvalid Hitab) as (ps2 & Hrun2 & _);
    [destruct bursts; [congruence | simpl; lia] | assumption |].
  rewrite fresh_table_bursts in Hrun1, Hrun2.
  split; [rewrite Hrun1; reflexivity|]. split; [eauto|]. split; [reflexivity|].
  pose proof (sum_pos_nonneg bursts) as Hnn.
  split.
  - intros Hfit. apply wrap_int_id. unfold int_range, INT_MIN, INT_MAX in *. lia.
  - intros Hpos Hfit. rewrite (sum_pos_nonneg_list bursts Hpos) in *.
    apply wrap_int_id. unfold int_range, INT_MIN, INT_MAX in *. lia.
Qed.

Lemma runs_return_positive_total_witness :
  let procs := init_procs (Some [pcb0; pcb0; pcb0]) (Some [5; 3; 8]) 3 in
  exists t : Z,
    snd (fcfs_run procs 3) = t
    /\ (exists ps' : list pcb, rr_run_returns procs 3 4 (Some ps', t))
    /\ t = wrap_int (sum_pos [5; 3; 8])
    /\ (sum_pos [5; 3; 8] <= INT_MAX -> t = sum_pos [5; 3; 8])
    /\ (Forall (fun b => 0 <= b) [5; 3; 8] -> sum_Z [5; 3; 8] <= INT_MAX
        -> t = sum_Z [5; 3; 8]).
Proof.
  apply (runs_return_positive_total [pcb0; pcb0; pcb0] [5; 3; 8] 4).
  - discriminate.
  - reflexivity.
  - int_table_tac.
  - unfold INT_MAX. simpl. lia.
  - lia.
Defined.

(** C3, counterexample: with the bursts [5; 0], process 1 ends fcfs_run with
    [wait = 0], while the positive bursts before it sum to [5]. *)
Lemma finished_process_never_waits :
  let procs := init_procs (Some [pcb0; pcb0]) (Some [5; 0]) 2 in
  exists (ps' : list pcb) (t : Z) (p : pcb),
    fcfs_run procs 2 = (Some ps', t) /\ ps' !! 1%nat = Some p
    /\ wait p <> sum_pos (take 1 [5; 0]).
Proof.
  exists [mk_pcb 0 0 0; mk_pcb 1 0 0], 5, (mk_pcb 1 0 0).
  repeat split. discriminate.
Qed.

(** C3, as amended: after fcfs_run on a freshly built table, a process whose
    burst is positive has as final wait the sum of the positive bursts of the
    processes before it, in [int] arithmetic (exactly that sum when it fits in
    an [int]); a process whose burst is [<= 0] has final wait [0]. *)
Theorem fcfs_final_wait (block : list pcb) (bursts : list Z) :
  bursts <> [] -> length block = length bursts ->
  Forall int_range bursts -> Z.of_nat (length bursts) <= INT_MAX ->
  let plen := Z.of_nat (length bursts) in
  let procs := init_procs (Some block) (Some bursts) plen in
  exists (ps' : list pcb) (t : Z),
    fcfs_run procs plen = (Some ps', t)
    /\ forall (i : nat) (b : Z), bursts !! i = Some b ->
         exists p : pcb, ps' !! i = Some p
           /\ (b <= 0 -> wait p = 0)
           /\ (0 < b -> wait p = wrap_int (sum_pos (take i bursts)))
           /\ (0 < b -> sum_pos (take i bursts) <= INT_MAX ->
               wait p = sum_pos (take i bursts)).
Proof.
  intros Hne Hblock Hint Hlen plen procs.
  unfold procs, plen. rewrite (init_procs_fresh block bursts Hne Hblock).
  pose proof (fresh_table_valid bursts) as Hvalid.
  pose proof (fresh_table_int bursts Hint Hlen) as Hitab.
  destruct (fcfs_run_spec _ _ Hvalid Hitab) as (ps' & Hrun & _ & Hfin).
  rewrite fresh_table_bursts in Hrun, Hfin.
  exists ps', (wrap_int (sum_pos bursts)). split; [assumption|].
  intros i b Hi. eexists. split.
  { apply Hfin. rewrite fresh_table_lookup, Hi. reflexivity. }
  unfold fcfs_cell. cbn [burst_left pid wait].
  pose proof (sum_pos_nonneg (take i bursts)) as Hnn.
  destruct (Z.gtb_spec b 0); cbn [wait]; rewrite ?Z.add_0_l.
  - split; [intros; lia|]. split; [reflexivity|]. intros _ Hfit.
    apply wrap_int_id. unfold int_range, INT_MIN, INT_MAX in *. lia.
  - split; [reflexivity|]. split; intros; lia.
Qed.

Lemma fcfs_final_wait_witness :
  let procs := init_procs (Some [pcb0; pcb0; pcb0]) (Some [5; 3; 8]) 3 in
  exists (ps' : list pcb) (t : Z),
    fcfs_run procs 3 = (Some ps', t)
    /\ forall (i : nat) (b : Z), [5; 3; 8] !! i = Some b ->
         exists p : pcb, ps' !! i = Some p
           /\ (b <= 0 -> wait p = 0)
           /\ (0 < b -> wait p = wrap_int (sum_pos (take i [5; 3; 8])))
           /\ (0 < b -> sum_pos (take i [5; 3; 8]) <= INT_MAX ->
               wait p = sum_pos (take i [5; 3; 8])).
Proof.
  apply (fcfs_final_wait [pcb0; pcb0; pcb0] [5; 3; 8]).
  - discriminate.
  - reflexivity.
  - int_table_tac.
  - unfold INT_MAX. simpl. lia.
Defined.

(** ** run_proc, one call *)

(** C4: on a valid table, with [current] in range and still running and
    [amount > 0], run_proc uses [used = min(amount, remaining)]: the
    [burst_left] of [current] goes down by [used] and stays [>= 0]; the [wait]
    of every other process with [burst_left > 0] goes up by [used] ([+=] on an
    [int], so exactly [wait + used] when that fits); no [pid], no [wait] of
    [current] or of a finished process and no other [burst_left] changes. *)
Theorem run_proc_effect (ps : list pcb) (plen current amount : Z) :
  valid_table ps plen -> int_table ps ->
  0 <= current < plen -> burst_left (load (Some ps) current) > 0 -> amount > 0 ->
  let used := Z.min amount (burst_left (load (Some ps) current)) in
  exists ps' : list pcb,
    run_proc (Some ps) plen current amount = Some ps'
    /\ length ps' = length ps
    /\ forall (i : nat) (p : pcb), ps !! i = Some p ->
         exists p' : pcb, ps' !! i = Some p'
           /\ pid p' = pid p
           /\ (Z.of_nat i = current ->
               burst_left p' = burst_left p - used /\ 0 <= burst_left p'
               /\ wait p' = wait p)
           /\ (Z.of_nat i <> current ->
               burst_left p' = burst_left p
               /\ (burst_left p > 0 ->
                   wait p' = int_add (wait p) used
                   /\ (wait p + used <= INT_MAX -> wait p' = wait p + used))
               /\ (burst_left p <= 0 -> wait p' = wait p)).
Proof.
  intros Hvalid Hint Hc Hpos Hamount used.
  destruct (valid_load_lookup ps plen current Hvalid Hc) as (pc & Hpc & Hload).
  unfold used. rewrite Hload in *. clear used.
  set (used := Z.min amount (burst_left pc)).
  exists (imap (run_proc_cell current used) ps).
  split; [apply run_proc_active; auto; lia|]. split; [apply length_imap|].
  intros i p Hi. exists (run_proc_cell current used i p).
  split; [rewrite list_lookup_imap, Hi; reflexivity|].
  unfold run_proc_cell. destruct (Z.eqb_spec (Z.of_nat i) current) as [Heq|Hne].
  - assert (i = Z.to_nat current) as -> by lia. rewrite Hpc in Hi. injection Hi as <-.
    unfold ran. cbn [pid burst_left wait]. repeat split; try lia.
  - destruct (int_table_lookup _ _ _ Hint Hi) as (_ & _ & Hw).
    unfold waited. destruct (Z.gtb_spec (burst_left p) 0);
      cbn [pid burst_left wait]; repeat split; try lia.
    intros Hfit. unfold int_add. apply wrap_int_id.
    unfold int_range, INT_MIN, INT_MAX in *. lia.
Qed.

Lemma run_proc_effect_witness :
  let ps := [mk_pcb 0 5 0; mk_pcb 1 3 2; mk_pcb 2 0 4] in
  let used := Z.min 4 (burst_left (load (Some ps) 0)) in
  exists ps' : list pcb,
    run_proc (Some ps) 3 0 4 = Some ps'
    /\ length ps' = length ps
    /\ forall (i : nat) (p : pcb), ps !! i = Some p ->
         exists p' : pcb, ps' !! i = Some p'
           /\ pid p' = pid p
           /\ (Z.of_nat i = 0 ->
               burst_left p' = burst_left p - used /\ 0 <= burst_left p'
               /\ wait p' = wait p)
           /\ (Z.of_nat i <> 0 ->
               burst_left p' = burst_left p
               /\ (burst_left p > 0 ->
                   wait p' = int_add (wait p) used
                   /\ (wait p + used <= INT_MAX -> wait p' = wait p + used))
               /\ (burst_left p <= 0 -> wait p' = wait p)).
Proof.
  apply (run_proc_effect [mk_pcb 0 5 0; mk_pcb 1 3 2; mk_pcb 2 0 4] 3 0 4).
  - reflexivity.
  - int_table_tac.
  - lia.
  - simpl. lia.
  - lia.
Defined.

(** ** rr_next *)

(** C5: on a valid table rr_next returns, and
    - a returned index other than [-1] is in range with [burst_left > 0];
    - with [previous] in range, when some other index is runnable the result
      is the runnable index other than [previous] at the smallest cyclic
      forward distance from [previous + 1] (strictly smaller than that of any
      other candidate), and when no other index is runnable but [previous]
      is, the result is [previous];
    - with [previous] out of range (as the initial [-1]), the result is the
      lowest runnable index. *)
Theorem rr_next_round_robin (ps : list pcb) (plen previous : Z) :
  valid_table ps plen ->
  exists r : Z,
    rr_next previous (Some ps) plen = Some r
    /\ (r <> -1 -> runnable ps r)
    /\ (0 <= previous < plen ->
        ((exists i : Z, runnable ps i /\ i <> previous) ->
         runnable ps r /\ r <> previous
         /\ forall j : Z, runnable ps j -> j <> previous -> j <> r ->
              cyc_dist plen previous r < cyc_dist plen previous j)
        /\ ((forall j : Z, runnable ps j -> j = previous) ->
            runnable ps previous -> r = previous))
    /\ (~ 0 <= previous < plen ->
        (exists i : Z, runnable ps i) ->
        runnable ps r /\ forall j : Z, runnable ps j -> r <= j).
Proof.
  intros Hvalid. unfold valid_table in Hvalid. unfold runnable. rewrite <- Hvalid.
  destruct (rr_next_cases previous (Some ps) plen)
    as (r & Hnext & [[Hnone Hall]|(Hr & Hpos & Hchoice)]); exists r.
  - split; [assumption|]. split; [intros H; lia|]. split.
    + intros _. split.
      * intros (i & [Hi Hp] & _). specialize (Hall i Hi). lia.
      * intros _ [Hi Hp]. specialize (Hall previous Hi). lia.
    + intros _ (i & Hi & Hp). specialize (Hall i Hi). lia.
  - split; [assumption|]. split; [intros _; split; assumption|].
    destruct Hchoice as [[Hout Hleast]|[(Hin & Hne & Hmin)|(Hin & -> & Hothers)]].
    + split; [intros Hin; lia|]. intros _ _. split; [split; assumption|].
      intros j [Hj Hpj]. destruct (Z_lt_le_dec j r) as [Hlt|]; [|assumption].
      specialize (Hleast j ltac:(lia)). lia.
    + split; [|intros Hout; lia]. intros _. split.
      * intros _. split; [split; assumption|]. split; [assumption|].
        intros j [Hj Hpj] Hjp Hjr. apply Hmin; assumption.
      * intros Honly _. exfalso. apply Hne. apply Honly. split; assumption.
    + split; [|intros Hout; lia]. intros _. split.
      * intros (i & [Hi Hp] & Hne). specialize (Hothers i Hi Hne). lia.
      * intros _ _. reflexivity.
Qed.

Lemma rr_next_round_robin_witness :
  let ps := [mk_pcb 0 0 7; mk_pcb 1 2 0; mk_pcb 2 0 3; mk_pcb 3 4 1] in
  exists r : Z,
    rr_next 1 (Some ps) 4 = Some r
    /\ (r <> -1 -> runnable ps r)
    /\ (0 <= 1 < 4 ->
        ((exists i : Z, runnable ps i /\ i <> 1) ->
         runnable ps r /\ r <> 1
         /\ forall j : Z, runnable ps j -> j <> 1 -> j <> r ->
              cyc_dist 4 1 r < cyc_dist 4 1 j)
        /\ ((forall j : Z, runnable ps j -> j = 1) ->
            runnable ps 1 -> r = 1))
    /\ (~ 0 <= 1 < 4 ->
        (exists i : Z, runnable ps i) ->
        runnable ps r /\ forall j : Z, runnable ps j -> r <= j).
Proof.
  apply (rr_next_round_robin
           [mk_pcb 0 0 7; mk_pcb 1 2 0; mk_pcb 2 0 3; mk_pcb 3 4 1] 4 1).
  reflexivity.
Defined.

(** C6, counterexample: on the one-process table with [burst_left = -1]
    rr_next returns [-1], although not every [burst_left] is [0]. *)
Lemma none_with_negative_burst :
  ~ (rr_next (-1) (Some [mk_pcb 0 (-1) 0]) 1 = Some (-1)
     <-> Forall (fun p => burst_left p = 0) [mk_pcb 0 (-1) 0]).
Proof.
  intros [H _]. specialize (H eq_refl).
  apply Forall_cons in H as [H _]. discriminate.
Qed.

(** C6, as amended: on a valid table and for every previous index, rr_next
    returns [-1] if and only if every process has [burst_left <= 0]; on a table
    without negative [burst_left] that is: if and only if every [burst_left]
    is [0]. *)
Theorem rr_next_none_iff (ps : list pcb) (plen previous : Z) :
  valid_table ps plen ->
  (rr_next previous (Some ps) plen = Some (-1)
   <-> Forall (fun p => burst_left p <= 0) ps)
  /\ (Forall (fun p => 0 <= burst_left p) ps ->
      (rr_next previous (Some ps) plen = Some (-1)
       <-> Forall (fun p => burst_left p = 0) ps)).
Proof.
  intros Hvalid.
  assert (Hmain : rr_next previous (Some ps) plen = Some (-1)
                  <-> Forall (fun p => burst_left p <= 0) ps).
  { destruct (rr_next_cases previous (Some ps) plen)
      as (r & Hnext & [[-> Hall]|(Hr & Hpos & _)]); rewrite Hnext.
    - split; [|reflexivity]. intros _. apply Forall_lookup. intros k p Hk.
      pose proof (lookup_lt_Some _ _ _ Hk). unfold valid_table in Hvalid.
      specialize (Hall (Z.of_nat k) ltac:(lia)).
      rewrite (load_Some _ _ _ Hk) in Hall. assumption.
    - split; [intros [= ->]; lia|]. intros Hdone. exfalso.
      destruct (valid_load_lookup ps plen r Hvalid Hr) as (p & Hp & Hload).
      pose proof (proj1 (Forall_lookup _ _) Hdone _ _ Hp) as Hle. cbn in Hle.
      rewrite Hload in Hpos. lia. }
  split; [assumption|]. intros Hnn. rewrite Hmain.
  rewrite !Forall_lookup. rewrite Forall_lookup in Hnn.
  split; intros H k p Hk; specialize (H k p Hk); specialize (Hnn k p Hk);
    cbn in *; lia.
Qed.

Lemma rr_next_none_iff_witness :
  (rr_next 0 (Some [mk_pcb 0 0 3; mk_pcb 1 (-2) 0]) 2 = Some (-1)
   <-> Forall (fun p => burst_left p <= 0) [mk_pcb 0 0 3; mk_pcb 1 (-2) 0])
  /\ (Forall (fun p => 0 <= burst_left p) [mk_pcb 0 0 3; mk_pcb 1 (-2) 0] ->
      (rr_next 0 (Some [mk_pcb 0 0 3; mk_pcb 1 (-2) 0]) 2 = Some (-1)
       <-> Forall (fun p => burst_left p = 0) [mk_pcb 0 0 3; mk_pcb 1 (-2) 0])).
Proof.
  apply (rr_next_none_iff [mk_pcb 0 0 3; mk_pcb 1 (-2) 0] 2 0).
  reflexivity.
Defined.

(** ** Accounting of the remaining burst *)

Lemma total_burst_step (ps : list pcb) (current used : Z) (pc : pcb) :
  0 <= current -> ps !! Z.to_nat current = Some pc ->
  total_burst (imap (run_proc_cell current used) ps) = total_burst ps - used.
Proof.
  intros Hc0 Hc. unfold total_burst.
  rewrite (bursts_of_step ps current used pc Hc0 Hc).
  rewrite (sum_Z_insert _ _ (burst_left pc))
    by (rewrite bursts_of_lookup, Hc; reflexivity).
  lia.
Qed.

Lemma sum_Z_floor (l : list Z) :
  forall l' : list Z,
  length l' = length l ->
  (forall (k : nat) (b : Z), l !! k = Some b -> l' !! k = Some (Z.min b 0)) ->
  sum_Z l' = sum_Z l - sum_pos l.
Proof.
  induction l as [|a l IH]; intros [|a' l'] Hlen Hcell; try discriminate.
  - reflexivity.
  - pose proof (Hcell O a eq_refl) as H0. injection H0 as ->.
    cbn [sum_Z sum_pos]. rewrite (IH l').
    + destruct (Z.gtb_spec a 0); lia.
    + simpl in Hlen. lia.
    + intros k b Hk. apply (Hcell (S k) b Hk).
Qed.

Lemma rr_next_finished (ps : list pcb) (plen previous : Z) :
  Forall (fun p => burst_left p <= 0) ps ->
  rr_next previous (Some ps) plen = Some (-1).
Proof.
  intros Hdone.
  destruct (rr_next_cases previous (Some ps) plen)
    as (r & Hnext & [[-> _]|(_ & Hpos & _)]); [assumption|].
  exfalso. revert Hpos. unfold load.
  destruct (ps !! Z.to_nat r) as [p|] eqn:Hp; cbn; [|lia].
  pose proof (proj1 (Forall_lookup _ _) Hdone _ _ Hp) as Hle. cbn in Hle. lia.
Qed.

(** C7: on a valid table and with [quantum > 0], rr_run terminates, and its
    loop leaves exactly when rr_next answers [-1].
    - The run returns, for every fuel from some bound on, a table on which
      rr_next answers [-1] for every previous index (no [burst_left] is
      positive any more); the total remaining burst has gone down by the sum
      of the positive bursts, which is the time returned.
    - rr_run is the loop started at time [0] with previous index [-1].
    - From any time and previous index, a pass of the loop either finds that
      rr_next answers [-1] and then leaves at once, the table and the time as
      they are, or finds that rr_next answers an index [r] other than [-1],
      and then does not leave (one pass is not enough): it calls run_proc on
      [r] for [amount = min(quantum, remaining) > 0], which lowers the total
      remaining burst by exactly [amount], adds [amount] to the time, and
      goes on from the new table with previous index [r]. *)
Theorem rr_run_terminates (ps : list pcb) (plen quantum : Z) :
  valid_table ps plen -> int_table ps -> 0 < quantum ->
  (exists (ps' : list pcb) (t : Z),
     rr_run_returns (Some ps) plen quantum (Some ps', t)
     /\ valid_table ps' plen
     /\ Forall (fun p => burst_left p <= 0) ps'
     /\ (forall previous : Z, rr_next previous (Some ps') plen = Some (-1))
     /\ total_burst ps' = total_burst ps - sum_pos (bursts_of ps)
     /\ t = wrap_int (sum_pos (bursts_of ps)))
  /\ (0 < plen -> forall fuel : nat,
        rr_run fuel (Some ps) plen quantum
        = (fun s => (rr_procs s, rr_time s))
            <$> rr_loop fuel (mk_rr_state (Some ps) 0 (-1)) plen quantum)
  /\ forall time current : Z,
       (rr_next current (Some ps) plen = Some (-1)
        /\ Forall (fun p => burst_left p <= 0) ps
        /\ rr_iter (mk_rr_state (Some ps) time current) plen quantum
           = Some (Break (mk_rr_state (Some ps) time (-1)))
        /\ forall fuel : nat,
             rr_loop (S fuel) (mk_rr_state (Some ps) time current) plen quantum
             = Some (mk_rr_state (Some ps) time (-1)))
       \/ (exists (r amount : Z) (ps' : list pcb),
             rr_next current (Some ps) plen = Some r /\ r <> -1
             /\ amount = Z.min quantum (burst_left (load (Some ps) r))
             /\ 0 < amount
             /\ run_proc (Some ps) plen r amount = Some ps'
             /\ rr_iter (mk_rr_state (Some ps) time current) plen quantum
                = Some (Again (mk_rr_state (Some ps') (int_add time amount) r))
             /\ total_burst ps' = total_burst ps - amount
             /\ valid_table ps' plen /\ int_table ps'
             /\ rr_loop 1 (mk_rr_state (Some ps) time current) plen quantum = None
             /\ forall fuel : nat,
                  rr_loop (S fuel) (mk_rr_state (Some ps) time current) plen quantum
                  = rr_loop fuel (mk_rr_state (Some ps') (int_add time amount) r)
                      plen quantum).
Proof.
  intros Hvalid Hint Hq. split; [|split].
  - destruct (Z_le_gt_dec plen 0) as [Hp|Hp].
    + assert (ps = []) as ->.
      { unfold valid_table in Hvalid. destruct ps; [reflexivity | simpl in Hvalid; lia]. }
      exists [], 0. split.
      { exists O. intros m _. unfold rr_run. cbn [is_null orb].
        destruct (Z.leb_spec plen 0); [reflexivity | lia]. }
      split; [assumption|]. split; [constructor|].
      split; [intros previous; apply rr_next_finished; constructor|].
      split; reflexivity.
    + destruct (rr_run_spec ps plen quantum Hvalid Hint ltac:(lia) Hq)
        as (ps' & Hrun & Hlen & Hfin).
      assert (Hdone : Forall (fun p => burst_left p <= 0) ps').
      { apply Forall_lookup. intros k p' Hk'.
        destruct (lookup_lt_is_Some_2 ps k) as [p Hk];
          [rewrite <- Hlen; eapply lookup_lt_Some; eauto|].
        destruct (Hfin k p Hk) as (q & Hq' & _ & Hbl & _).
        rewrite Hq' in Hk'. injection Hk' as <-. cbn. lia. }
      exists ps', (wrap_int (sum_pos (bursts_of ps))).
      split; [assumption|].
      split; [unfold valid_table in *; congruence|].
      split; [assumption|].
      split; [intros previous; apply rr_next_finished; assumption|].
      split; [|reflexivity].
      unfold total_burst. apply sum_Z_floor.
      * unfold bursts_of. rewrite !length_fmap. assumption.
      * intros k b Hk. rewrite bursts_of_lookup in Hk.
        destruct (ps !! k) as [p|] eqn:Hpk; [|discriminate]. injection Hk as <-.
        destruct (Hfin k p Hpk) as (q & Hq' & _ & Hbl & _).
        rewrite bursts_of_lookup, Hq'. cbn. rewrite Hbl. reflexivity.
  - intros Hp fuel. unfold rr_run. cbn [is_null orb].
    destruct (Z.leb_spec plen 0); [lia|]. destruct (Z.leb_spec quantum 0); [lia|].
    cbn [orb]. destruct (rr_loop fuel _ plen quantum); reflexivity.
  - intros time current.
    destruct (rr_iter_spec ps plen quantum time current Hvalid Hint Hq)
      as [(Hiter & Hnext & Hall)|(r & pr & Hr & Hpr & Hpos & Hnext & Hiter)].
    + left. split; [assumption|]. split; [apply Forall_lookup; exact Hall|].
      split; [assumption|]. intros fuel. cbn [rr_loop]. rewrite Hiter. reflexivity.
    + right. exists r, (Z.min quantum (burst_left pr)),
                (imap (run_proc_cell r (Z.min quantum (burst_left pr))) ps).
      split; [assumption|]. split; [lia|].
      split; [rewrite (load_Some_Z _ _ _ Hpr); reflexivity|].
      split; [lia|].
      split.
      { rewrite (run_proc_active ps plen r _ pr) by (auto; lia).
        do 3 f_equal. lia. }
      split; [assumption|].
      split; [apply (total_burst_step ps r _ pr); [lia | assumption]|].
      split; [unfold valid_table in *; rewrite length_imap; assumption|].
      split; [eapply int_table_step; eauto; lia|].
      split; [cbn [rr_loop]; rewrite Hiter; reflexivity|].
      intros fuel. cbn [rr_loop]. rewrite Hiter. reflexivity.
Qed.

Lemma rr_run_terminates_witness :
  let ps := [mk_pcb 0 5 0; mk_pcb 1 3 0; mk_pcb 2 8 0] in
  (exists (ps' : list pcb) (t : Z),
     rr_run_returns (Some ps) 3 4 (Some ps', t)
     /\ valid_table ps' 3
     /\ Forall (fun p => burst_left p <= 0) ps'
     /\ (forall previous : Z, rr_next previous (Some ps') 3 = Some (-1))
     /\ total_burst ps' = total_burst ps - sum_pos (bursts_of ps)
     /\ t = wrap_int (sum_pos (bursts_of ps)))
  /\ (0 < 3 -> forall fuel : nat,
        rr_run fuel (Some ps) 3 4
        = (fun s => (rr_procs s, rr_time s))
            <$> rr_loop fuel (mk_rr_state (Some ps) 0 (-1)) 3 4)
  /\ forall time current : Z,
       (rr_next current (Some ps) 3 = Some (-1)
        /\ Forall (fun p => burst_left p <= 0) ps
        /\ rr_iter (mk_rr_state (Some ps) time current) 3 4
           = Some (Break (mk_rr_state (Some ps) time (-1)))
        /\ forall fuel : nat,
             rr_loop (S fuel) (mk_rr_state (Some ps) time current) 3 4
             = Some (mk_rr_state (Some ps) time (-1)))
       \/ (exists (r amount : Z) (ps' : list pcb),
             rr_next current (Some ps) 3 = Some r /\ r <> -1
             /\ amount = Z.min 4 (burst_left (load (Some ps) r))
             /\ 0 < amount
             /\ run_proc (Some ps) 3 r amount = Some ps'
             /\ rr_iter (mk_rr_state (Some ps) time current) 3 4
                = Some (Again (mk_rr_state (Some ps') (int_add time amount) r))
             /\ total_burst ps' = total_burst ps - amount
             /\ valid_table ps' 3 /\ int_table ps'
             /\ rr_loop 1 (mk_rr_state (Some ps) time current) 3 4 = None
             /\ forall fuel : nat,
                  rr_loop (S fuel) (mk_rr_state (Some ps) time current) 3 4
                  = rr_loop fuel (mk_rr_state (Some ps') (int_add time amount) r) 3 4).
Proof.
  apply (rr_run_terminates [mk_pcb 0 5 0; mk_pcb 1 3 0; mk_pcb 2 8 0] 3 4).
  - reflexivity.
  - int_table_tac.
  - lia.
Defined.

(** C8: a call of run_proc on a valid table lowers the sum of all
    [burst_left] by exactly the time it advances (the amount used, [0] when the
    call returns at a guard), and a [burst_left] that was [>= 0] is [>= 0]
    afterwards. *)
Theorem run_proc_burst_accounting (ps : list pcb) (plen current amount : Z) :
  valid_table ps plen -> int_table ps ->
  exists ps' : list pcb,
    run_proc (Some ps) plen current amount = Some ps'
    /\ 0 <= time_advanced (Some ps) plen current amount
    /\ total_burst ps' = total_burst ps - time_advanced (Some ps) plen current amount
    /\ forall (i : nat) (p : pcb), ps !! i = Some p -> 0 <= burst_left p ->
         exists p' : pcb, ps' !! i = Some p' /\ 0 <= burst_left p'.
Proof.
  intros Hvalid Hint.
  destruct (run_proc_cases ps plen current amount Hvalid Hint)
    as [[Hrun Hta]|(pc & Hc & Hpc & Hpos & Hamount & Hta & Hrun)];
    rewrite Hrun, Hta.
  - exists ps. split; [reflexivity|]. split; [lia|]. split; [lia|]. eauto.
  - eexists. split; [reflexivity|]. split; [lia|].
    split; [apply (total_burst_step ps current _ pc); [lia | assumption]|].
    intros i p Hi Hnn. eexists. split; [rewrite list_lookup_imap, Hi; reflexivity|].
    unfold run_proc_cell. destruct (Z.eqb_spec (Z.of_nat i) current) as [Heq|Hne].
    + assert (i = Z.to_nat current) as -> by lia. rewrite Hpc in Hi. injection Hi as <-.
      unfold ran. cbn [burst_left]. lia.
    + unfold waited. destruct (burst_left p >? 0); cbn [burst_left]; assumption.
Qed.

Lemma run_proc_burst_accounting_witness :
  let ps := [mk_pcb 0 5 0; mk_pcb 1 3 2; mk_pcb 2 0 4] in
  exists ps' : list pcb,
    run_proc (Some ps) 3 1 7 = Some ps'
    /\ 0 <= time_advanced (Some ps) 3 1 7
    /\ total_burst ps' = total_burst ps - time_advanced (Some ps) 3 1 7
    /\ forall (i : nat) (p : pcb), ps !! i = Some p -> 0 <= burst_left p ->
         exists p' : pcb, ps' !! i = Some p' /\ 0 <= burst_left p'.
Proof.
  apply (run_proc_burst_accounting [mk_pcb 0 5 0; mk_pcb 1 3 2; mk_pcb 2 0 4] 3 1 7).
  - reflexivity.
  - int_table_tac.
Defined.

(** ** Guards *)

Lemma invalid_calls_noop_rr (fuel : nat) (procs : option (list pcb)) (plen quantum : Z) :
  procs = None \/ plen <= 0 \/ quantum <= 0 ->
  rr_run fuel procs plen quantum = Some (procs, 0).
Proof.
  intros H. unfold rr_run.
  destruct H as [->|[H|H]]; [reflexivity | |].
  - destruct (is_null procs); [reflexivity|]. cbn [orb].
    destruct (Z.leb_spec plen 0); [reflexivity | lia].
  - destruct (is_null procs), (plen <=? 0); try reflexivity. cbn [orb].
    destruct (Z.leb_spec quantum 0); [reflexivity | lia].
Qed.

(** C9: run_proc called with a NULL table, [plen <= 0], an index out of range
    or [amount <= 0] returns with the table as it was; rr_run called with a
    NULL table, [plen <= 0] or [quantum <= 0] returns [0] with the table as it
    was, whatever the fuel. *)
Theorem invalid_calls_change_nothing (procs : option (list pcb))
    (plen current amount quantum : Z) (fuel : nat) :
  (procs = None \/ plen <= 0 \/ current < 0 \/ current >= plen \/ amount <= 0 ->
   run_proc procs plen current amount = procs)
  /\ (procs = None \/ plen <= 0 \/ quantum <= 0 ->
      rr_run fuel procs plen quantum = Some (procs, 0)).
Proof.
  split.
  - intros H. apply run_proc_guard. destruct H as [->|H]; [left; reflexivity | auto].
  - apply invalid_calls_noop_rr.
Qed.

Lemma invalid_calls_change_nothing_witness :
  run_proc (Some [mk_pcb 0 5 0; mk_pcb 1 3 0]) 2 2 4 = Some [mk_pcb 0 5 0; mk_pcb 1 3 0]
  /\ rr_run 0 (Some [mk_pcb 0 5 0; mk_pcb 1 3 0]) 2 0
     = Some (Some [mk_pcb 0 5 0; mk_pcb 1 3 0], 0).
Proof.
  destruct (invalid_calls_change_nothing (Some [mk_pcb 0 5 0; mk_pcb 1 3 0]) 2 2 4 0 0)
    as [Hrun Hrr].
  split.
  - apply Hrun. right. right. right. left. lia.
  - apply Hrr. right. right. lia.
Defined.

(** ** Finished processes *)

(** C10: a PCB with [burst_left <= 0] in a valid table is the same PCB, in
    [burst_left] and in [wait], after any call of run_proc, after fcfs_run
    and after rr_run with any quantum; so a negative burst stays as it is. *)
Theorem finished_pcb_untouched (ps : list pcb) (plen : Z) (i : nat) (p : pcb) :
  valid_table ps plen -> int_table ps ->
  ps !! i = Some p -> burst_left p <= 0 ->
  (forall current amount : Z,
     exists ps' : list pcb,
       run_proc (Some ps) plen current amount = Some ps' /\ ps' !! i = Some p)
  /\ (exists (ps' : list pcb) (t : Z),
        fcfs_run (Some ps) plen = (Some ps', t) /\ ps' !! i = Some p)
  /\ (forall quantum : Z,
        exists (ps' : list pcb) (t : Z),
          rr_run_returns (Some ps) plen quantum (Some ps', t) /\ ps' !! i = Some p).
Proof.
  intros Hvalid Hint Hi Hdone. split; [|split].
  - intros current amount.
    destruct (run_proc_cases ps plen current amount Hvalid Hint)
      as [[Hrun _]|(pc & Hc & Hpc & Hpos & _ & _ & Hrun)]; rewrite Hrun.
    + eauto.
    + eexists. split; [reflexivity|]. rewrite list_lookup_imap, Hi. cbn.
      f_equal. unfold run_proc_cell.
      destruct (Z.eqb_spec (Z.of_nat i) current) as [Heq|Hne].
      * assert (i = Z.to_nat current) as -> by lia. rewrite Hpc in Hi. injection Hi as <-.
        lia.
      * unfold waited. destruct (Z.gtb_spec (burst_left p) 0); [lia | reflexivity].
  - destruct (fcfs_run_spec ps plen Hvalid Hint) as (ps' & Hrun & _ & Hfin).
    exists ps', (wrap_int (sum_pos (bursts_of ps))). split; [assumption|].
    rewrite (Hfin i p Hi). unfold fcfs_cell.
    destruct (Z.gtb_spec (burst_left p) 0); [lia | reflexivity].
  - intros quantum. destruct (Z_le_gt_dec quantum 0) as [Hq|Hq].
    + exists ps, 0. split; [|assumption]. exists O. intros m _.
      apply invalid_calls_noop_rr. auto.
    + assert (0 < plen) as Hp.
      { pose proof (lookup_lt_Some _ _ _ Hi). unfold valid_table in Hvalid. lia. }
      destruct (rr_run_spec ps plen quantum Hvalid Hint Hp ltac:(lia))
        as (ps' & Hrun & _ & Hfin).
      exists ps', (wrap_int (sum_pos (bursts_of ps))). split; [assumption|].
      destruct (Hfin i p Hi) as (p' & Hp' & _ & _ & Hsame).
      rewrite Hp', (Hsame Hdone). reflexivity.
Qed.

Lemma finished_pcb_untouched_witness :
  let ps := [mk_pcb 0 5 0; mk_pcb 1 (-2) 0; mk_pcb 2 8 0] in
  (forall current amount : Z,
     exists ps' : list pcb,
       run_proc (Some ps) 3 current amount = Some ps'
       /\ ps' !! 1%nat = Some (mk_pcb 1 (-2) 0))
  /\ (exists (ps' : list pcb) (t : Z),
        fcfs_run (Some ps) 3 = (Some ps', t) /\ ps' !! 1%nat = Some (mk_pcb 1 (-2) 0))
  /\ (forall quantum : Z,
        exists (ps' : list pcb) (t : Z),
          rr_run_returns (Some ps) 3 quantum (Some ps', t)
          /\ ps' !! 1%nat = Some (mk_pcb 1 (-2) 0)).
Proof.
  apply (finished_pcb_untouched
           [mk_pcb 0 5 0; mk_pcb 1 (-2) 0; mk_pcb 2 8 0] 3 1 (mk_pcb 1 (-2) 0)).
  - reflexivity.
  - int_table_tac.
  - reflexivity.
  - simpl. lia.
Defined.

(** * Further properties *)

(** ** init_procs *)

Lemma init_procs_loop_some (bursts : option (list Z)) (n : nat) :
  forall (i : Z) (block : list pcb),
  exists ps : list pcb,
    init_procs_loop n i bursts (Some block) = Some ps /\ length ps = length block.
Proof.
  induction n as [|n IH]; intros i block.
  - exists block. split; reflexivity.
  - cbn [init_procs_loop]. unfold set_wait, set_burst_left, set_pid. cbn [store].
    match goal with
    | |- context [init_procs_loop n (i + 1) bursts (Some ?b)] =>
        destruct (IH (i + 1) b) as (ps & Hrun & Hlen)
    end.
    exists ps. split; [assumption|]. rewrite Hlen, !length_insert. reflexivity.
Qed.

(** X1: init_procs answers NULL exactly when [blen <= 0], when [bursts] is
    NULL, or when the allocation failed. *)
Theorem init_procs_null_iff (block : option (list pcb)) (bursts : option (list Z))
    (blen : Z) :
  init_procs block bursts blen = None
  <-> blen <= 0 \/ bursts = None \/ block = None.
Proof.
  unfold init_procs. destruct (Z.leb_spec blen 0) as [Hb|Hb].
  { cbn [orb]. split; auto. }
  destruct bursts as [bs|]; cbn [is_null orb]; [|split; auto].
  destruct block as [b|]; cbn [is_null]; [|split; auto].
  destruct (init_procs_loop_some (Some bs) (Z.to_nat blen) 0 b) as (ps & Hrun & _).
  rewrite Hrun. split; [discriminate|].
  intros [H|[H|H]]; [lia | discriminate | discriminate].
Qed.

(** X2: given [blen > 0], an array [bursts] of at least [blen] ints and a
    successful allocation of [blen] cells, init_procs returns a table of
    [blen] PCBs whose cell [i] has [pid = i], [burst_left = bursts[i]] and
    [wait = 0], whatever the allocated cells held before. *)
Theorem init_procs_builds (block : list pcb) (bursts : list Z) (blen : Z) :
  0 < blen -> (Z.to_nat blen <= length bursts)%nat ->
  length block = Z.to_nat blen ->
  exists ps : list pcb,
    init_procs (Some block) (Some bursts) blen = Some ps
    /\ length ps = Z.to_nat blen
    /\ forall (i : nat) (b : Z), (i < Z.to_nat blen)%nat -> bursts !! i = Some b ->
         ps !! i = Some (mk_pcb (Z.of_nat i) b 0).
Proof.
  intros Hb Hbursts Hblock. unfold init_procs. cbn [is_null orb].
  destruct (Z.leb_spec blen 0); [lia|]. cbn [orb].
  destruct (init_procs_loop_spec bursts (Z.to_nat blen) 0 block) as (ps & Hrun & Hl & Hcell);
    [lia|].
  change (Z.of_nat 0) with 0 in Hrun. exists ps. split; [assumption|].
  split; [lia|]. intros i b Hi Hbi. rewrite Hcell.
  destruct (decide _) as [_|Hn]; [|lia]. rewrite Hbi. reflexivity.
Qed.

Lemma init_procs_builds_witness :
  exists ps : list pcb,
    init_procs (Some [mk_pcb 9 9 9; mk_pcb 7 7 7]) (Some [5; 3; 8]) 2 = Some ps
    /\ length ps = Z.to_nat 2
    /\ forall (i : nat) (b : Z), (i < Z.to_nat 2)%nat -> [5; 3; 8] !! i = Some b ->
         ps !! i = Some (mk_pcb (Z.of_nat i) b 0).
Proof.
  apply (init_procs_builds [mk_pcb 9 9 9; mk_pcb 7 7 7] [5; 3; 8] 2).
  - lia.
  - simpl. lia.
  - reflexivity.
Defined.

(** ** Shape of the table *)

Lemma pid_run_proc_cell (current used : Z) (k : nat) (p : pcb) :
  pid (run_proc_cell current used k p) = pid p.
Proof.
  unfold run_proc_cell, ran, waited.
  destruct (Z.of_nat k =? current), (burst_left p >? 0); reflexivity.
Qed.

Lemma same_pids (ps ps' : list pcb) :
  length ps' = length ps ->
  (forall (k : nat) (p : pcb), ps !! k = Some p ->
     exists p' : pcb, ps' !! k = Some p' /\ pid p' = pid p) ->
  pid <$> ps' = pid <$> ps.
Proof.
  intros Hlen Hcell. apply list_eq. intros k. rewrite !list_lookup_fmap.
  destruct (ps !! k) as [p|] eqn:Hk.
  - destruct (Hcell k p Hk) as (p' & Hp' & Hpid). rewrite Hp'. cbn. congruence.
  - rewrite (proj2 (lookup_ge_None ps' k)); [reflexivity|].
    rewrite Hlen. apply lookup_ge_None. assumption.
Qed.

(** X3: on a valid table, no operation changes the number of PCBs or any
    [pid]: the list of pids after run_proc (any arguments), after fcfs_run and
    after rr_run (any quantum) is the list of pids before. *)
Theorem pids_never_change (ps : list pcb) (plen : Z) :
  valid_table ps plen -> int_table ps ->
  (forall current amount : Z,
     exists ps' : list pcb,
       run_proc (Some ps) plen current amount = Some ps'
       /\ pid <$> ps' = pid <$> ps)
  /\ (exists (ps' : list pcb) (t : Z),
        fcfs_run (Some ps) plen = (Some ps', t) /\ pid <$> ps' = pid <$> ps)
  /\ (forall quantum : Z,
        exists (ps' : list pcb) (t : Z),
          rr_run_returns (Some ps) plen quantum (Some ps', t)
          /\ pid <$> ps' = pid <$> ps).
Proof.
  intros Hvalid Hint. split; [|split].
  - intros current amount.
    destruct (run_proc_cases ps plen current amount Hvalid Hint)
      as [[Hrun _]|(pc & _ & _ & _ & _ & _ & Hrun)]; rewrite Hrun; eexists;
      (split; [reflexivity|]); [reflexivity|].
    apply same_pids; [apply length_imap|]. intros k p Hk. eexists.
    split; [rewrite list_lookup_imap, Hk; reflexivity | apply pid_run_proc_cell].
  - destruct (fcfs_run_spec ps plen Hvalid Hint) as (ps' & Hrun & Hlen & Hfin).
    exists ps', (wrap_int (sum_pos (bursts_of ps))). split; [assumption|].
    apply same_pids; [assumption|]. intros k p Hk. eexists.
    split; [apply Hfin, Hk|]. unfold fcfs_cell. destruct (burst_left p >? 0); reflexivity.
  - intros quantum.
    destruct (Z_le_gt_dec quantum 0) as [Hq|Hq];
      [|destruct (Z_le_gt_dec plen 0) as [Hp|Hp]].
    + exists ps, 0. split; [|reflexivity]. exists O. intros m _.
      apply invalid_calls_noop_rr. auto.
    + exists ps, 0. split; [|reflexivity]. exists O. intros m _.
      apply invalid_calls_noop_rr. auto.
    + destruct (rr_run_spec ps plen quantum Hvalid Hint ltac:(lia) ltac:(lia))
        as (ps' & Hrun & Hlen & Hfin).
      exists ps', (wrap_int (sum_pos (bursts_of ps))). split; [assumption|].
      apply same_pids; [assumption|]. intros k p Hk.
      destruct (Hfin k p Hk) as (p' & Hp' & Hpid & _). eauto.
Qed.

Lemma pids_never_change_witness :
  let ps := [mk_pcb 0 5 0; mk_pcb 1 3 0; mk_pcb 2 8 0] in
  (forall current amount : Z,
     exists ps' : list pcb,
       run_proc (Some ps) 3 current amount = Some ps'
       /\ pid <$> ps' = pid <$> ps)
  /\ (exists (ps' : list pcb) (t : Z),
        fcfs_run (Some ps) 3 = (Some ps', t) /\ pid <$> ps' = pid <$> ps)
  /\ (forall quantum : Z,
        exists (ps' : list pcb) (t : Z),
          rr_run_returns (Some ps) 3 quantum (Some ps', t)
          /\ pid <$> ps' = pid <$> ps).
Proof.
  apply (pids_never_change [mk_pcb 0 5 0; mk_pcb 1 3 0; mk_pcb 2 8 0] 3).
  - reflexivity.
  - int_table_tac.
Defined.

(** ** Tables with nothing left to run *)

Lemma fcfs_loop_finished (procs : option (list pcb)) (plen : Z) (n : nat) :
  forall i time : Z,
  (forall j : Z, i <= j < i + Z.of_nat n -> burst_left (load procs j) <= 0) ->
  fcfs_loop n i procs plen time = (procs, time).
Proof.
  induction n as [|n IH]; intros i time Hall; [reflexivity|].
  cbn [fcfs_loop]. destruct (Z.leb_spec (burst_left (load procs i)) 0) as [_|Hpos].
  - apply IH. intros j Hj. apply Hall. lia.
  - specialize (Hall i ltac:(lia)). lia.
Qed.

Lemma load_finished (ps : list pcb) (j : Z) :
  Forall (fun p => burst_left p <= 0) ps -> burst_left (load (Some ps) j) <= 0.
Proof.
  intros Hdone. unfold load. destruct (ps !! Z.to_nat j) as [p|] eqn:Hp; cbn; [|lia].
  exact (proj1 (Forall_lookup _ _) Hdone _ _ Hp).
Qed.

Lemma finished_table_fixed (ps : list pcb) (plen quantum : Z) :
  Forall (fun p => burst_left p <= 0) ps ->
  fcfs_run (Some ps) plen = (Some ps, 0)
  /\ rr_run_returns (Some ps) plen quantum (Some ps, 0).
Proof.
  intros Hdone. split.
  - unfold fcfs_run. cbn [is_null orb]. destruct (plen <=? 0); [reflexivity|].
    apply fcfs_loop_finished. intros j _. apply load_finished. assumption.
  - exists 1%nat. intros [|m] Hm; [lia|]. unfold rr_run. cbn [is_null orb].
    destruct ((plen <=? 0) || (quantum <=? 0)); [reflexivity|].
    cbn [rr_loop]. unfold rr_iter. cbn [rr_procs rr_time rr_current].
    destruct (rr_next_cases (-1) (Some ps) plen)
      as (r & Hnext & [[-> _]|(_ & Hpos & _)]); rewrite Hnext.
    + reflexivity.
    + pose proof (load_finished ps r Hdone). lia.
Qed.

(** X4: on a table where every [burst_left] is [<= 0] (as built from bursts
    that are all [0] or negative), run_proc with any arguments, fcfs_run and
    rr_run with any quantum leave the whole table as it is, and both runs
    return [0]. *)
Theorem nothing_to_run (ps : list pcb) (plen : Z) :
  valid_table ps plen ->
  Forall (fun p => burst_left p <= 0) ps ->
  (forall current amount : Z, run_proc (Some ps) plen current amount = Some ps)
  /\ fcfs_run (Some ps) plen = (Some ps, 0)
  /\ (forall quantum : Z, rr_run_returns (Some ps) plen quantum (Some ps, 0)).
Proof.
  intros _ Hdone. split; [|split].
  - intros current amount. apply run_proc_finished. apply load_finished. assumption.
  - apply (finished_table_fixed ps plen 0 Hdone).
  - intros quantum. apply (finished_table_fixed ps plen quantum Hdone).
Qed.

Lemma nothing_to_run_witness :
  let ps := [mk_pcb 0 0 4; mk_pcb 1 (-2) 0] in
  (forall current amount : Z, run_proc (Some ps) 2 current amount = Some ps)
  /\ fcfs_run (Some ps) 2 = (Some ps, 0)
  /\ (forall quantum : Z, rr_run_returns (Some ps) 2 quantum (Some ps, 0)).
Proof.
  apply (nothing_to_run [mk_pcb 0 0 4; mk_pcb 1 (-2) 0] 2).
  - reflexivity.
  - repeat constructor; simpl; lia.
Defined.

(** X5: a second run does nothing.  After fcfs_run, or after rr_run with
    [quantum > 0], on a valid table, running fcfs_run or rr_run (any quantum)
    again returns [0] and leaves the table as the first run left it. *)
Theorem second_run_is_noop (ps : list pcb) (plen quantum quantum' : Z) :
  valid_table ps plen -> int_table ps -> 0 < quantum ->
  (exists (ps1 : list pcb) (t1 : Z),
     fcfs_run (Some ps) plen = (Some ps1, t1)
     /\ fcfs_run (Some ps1) plen = (Some ps1, 0)
     /\ rr_run_returns (Some ps1) plen quantum' (Some ps1, 0))
  /\ (exists (ps2 : list pcb) (t2 : Z),
        rr_run_returns (Some ps) plen quantum (Some ps2, t2)
        /\ fcfs_run (Some ps2) plen = (Some ps2, 0)
        /\ rr_run_returns (Some ps2) plen quantum' (Some ps2, 0)).
Proof.
  intros Hvalid Hint Hq. split.
  - destruct (fcfs_run_spec ps plen Hvalid Hint) as (ps1 & Hrun & Hlen & Hfin).
    exists ps1, (wrap_int (sum_pos (bursts_of ps))). split; [assumption|].
    apply finished_table_fixed. apply Forall_lookup. intros k p1 Hk1.
    destruct (lookup_lt_is_Some_2 ps k) as [p Hk];
      [rewrite <- Hlen; eapply lookup_lt_Some; eauto|].
    rewrite (Hfin k p Hk) in Hk1. injection Hk1 as <-. unfold fcfs_cell.
    destruct (Z.gtb_spec (burst_left p) 0); cbn [burst_left]; lia.
  - destruct (Z_le_gt_dec plen 0) as [Hp|Hp].
    + assert (ps = []) as ->.
      { unfold valid_table in Hvalid. destruct ps; [reflexivity | simpl in Hvalid; lia]. }
      exists [], 0. split.
      * exists O. intros m _. apply invalid_calls_noop_rr. auto.
      * apply finished_table_fixed. constructor.
    + destruct (rr_run_spec ps plen quantum Hvalid Hint ltac:(lia) Hq)
        as (ps2 & Hrun & Hlen & Hfin).
      exists ps2, (wrap_int (sum_pos (bursts_of ps))). split; [assumption|].
      apply finished_table_fixed. apply Forall_lookup. intros k p2 Hk2.
      destruct (lookup_lt_is_Some_2 ps k) as [p Hk];
        [rewrite <- Hlen; eapply lookup_lt_Some; eauto|].
      destruct (Hfin k p Hk) as (p' & Hp' & _ & Hbl & _).
      rewrite Hp' in Hk2. injection Hk2 as <-. cbn. lia.
Qed.

Lemma second_run_is_noop_witness :
  let ps := [mk_pcb 0 5 0; mk_pcb 1 3 0; mk_pcb 2 8 0] in
  (exists (ps1 : list pcb) (t1 : Z),
     fcfs_run (Some ps) 3 = (Some ps1, t1)
     /\ fcfs_run (Some ps1) 3 = (Some ps1, 0)
     /\ rr_run_returns (Some ps1) 3 2 (Some ps1, 0))
  /\ (exists (ps2 : list pcb) (t2 : Z),
        rr_run_returns (Some ps) 3 4 (Some ps2, t2)
        /\ fcfs_run (Some ps2) 3 = (Some ps2, 0)
        /\ rr_run_returns (Some ps2) 3 2 (Some ps2, 0)).
Proof.
  apply (second_run_is_noop [mk_pcb 0 5 0; mk_pcb 1 3 0; mk_pcb 2 8 0] 3 4 2).
  - reflexivity.
  - int_table_tac.
  - lia.
Defined.

(** ** Two slices in a row *)

Lemma run_proc_cell_twice (current a b : Z) (k : nat) (p : pcb) :
  run_proc_cell current b k (run_proc_cell current a k p)
  = run_proc_cell current (a + b) k p.
Proof.
  unfold run_proc_cell. destruct (Z.of_nat k =? current).
  - unfold ran. cbn [pid burst_left wait]. f_equal. lia.
  - unfold waited. destruct (burst_left p >? 0) eqn:Hp; cbn [pid burst_left wait].
    + rewrite Hp. f_equal. unfold int_add. rewrite wrap_int_add_l. f_equal. lia.
    + rewrite Hp. reflexivity.
Qed.

(** X6: on a valid table, two calls of run_proc in a row for the same process,
    with amounts [a > 0] and [b > 0], leave the table exactly as one call with
    amount [a + b] does. *)
Theorem run_proc_slices_add (ps : list pcb) (plen current a b : Z) :
  valid_table ps plen -> int_table ps -> 0 < a -> 0 < b ->
  run_proc (run_proc (Some ps) plen current a) plen current b
  = run_proc (Some ps) plen current (a + b).
Proof.
  intros Hvalid Hint Ha Hb.
  destruct (Z_lt_le_dec current 0) as [Hc0|Hc0].
  { rewrite !(run_proc_guard (Some ps)) by auto. reflexivity. }
  destruct (Z_le_gt_dec plen current) as [Hc1|Hc1].
  { rewrite !(run_proc_guard (Some ps)) by (right; right; right; left; lia).
    reflexivity. }
  destruct (valid_load_lookup ps plen current Hvalid ltac:(lia)) as (pc & Hpc & Hload).
  destruct (Z_le_gt_dec (burst_left pc) 0) as [Hdone|Hpos].
  { rewrite !(run_proc_finished ps) by (rewrite Hload; assumption). reflexivity. }
  - rewrite (run_proc_active ps plen current a pc) by (auto; lia).
    rewrite (run_proc_active ps plen current (a + b) pc) by (auto; lia).
    set (ps1 := imap (run_proc_cell current (Z.min a (burst_left pc))) ps).
    assert (Hvalid1 : valid_table ps1 plen).
    { unfold valid_table, ps1 in *. rewrite length_imap. assumption. }
    assert (Hint1 : int_table ps1) by (eapply int_table_step; eauto; lia).
    assert (Hpc1 : ps1 !! Z.to_nat current
                   = Some (ran (Z.min a (burst_left pc)) pc)).
    { unfold ps1. rewrite list_lookup_imap, Hpc. cbn. unfold run_proc_cell.
      destruct (Z.eqb_spec (Z.of_nat (Z.to_nat current)) current); [reflexivity | lia]. }
    destruct (Z_le_gt_dec (burst_left pc) a) as [Hle|Hgt].
    + rewrite run_proc_finished
        by (rewrite (load_Some_Z _ _ _ Hpc1); unfold ran; cbn; lia).
      unfold ps1.
      replace (Z.min (a + b) (burst_left pc)) with (Z.min a (burst_left pc)) by lia.
      reflexivity.
    + rewrite (run_proc_active ps1 plen current b _ Hvalid1 Hint1 ltac:(lia) Hpc1)
        by (unfold ran; cbn; lia).
      f_equal. unfold ps1. apply list_eq. intros k. rewrite !list_lookup_imap.
      destruct (ps !! k) as [p|]; [|reflexivity]. cbn. f_equal.
      rewrite run_proc_cell_twice. f_equal.
      unfold ran. cbn [burst_left]. lia.
Qed.

Lemma run_proc_slices_add_witness :
  run_proc (run_proc (Some [mk_pcb 0 5 0; mk_pcb 1 3 2]) 2 0 2) 2 0 4
  = run_proc (Some [mk_pcb 0 5 0; mk_pcb 1 3 2]) 2 0 (2 + 4).
Proof.
  apply (run_proc_slices_add [mk_pcb 0 5 0; mk_pcb 1 3 2] 2 0 2 4).
  - reflexivity.
  - int_table_tac.
  - lia.
  - lia.
Defined.

(** ** Round-Robin with a quantum no burst exceeds *)

Lemma fcfs_loop_skip (procs : option (list pcb)) (plen : Z) (d : nat) :
  forall (m : nat) (i time : Z),
  (forall j : Z, i <= j < i + Z.of_nat d -> burst_left (load procs j) <= 0) ->
  fcfs_loop (d + m) i procs plen time = fcfs_loop m (i + Z.of_nat d) procs plen time.
Proof.
  induction d as [|d IH]; intros m i time Hall.
  - cbn. rewrite Z.add_0_r. reflexivity.
  - cbn [Nat.add fcfs_loop].
    destruct (Z.leb_spec (burst_left (load procs i)) 0) as [_|Hpos].
    + rewrite IH by (intros j Hj; apply Hall; lia). f_equal. lia.
    + specialize (Hall i ltac:(lia)). lia.
Qed.

Lemma load_step_burst (ps : list pcb) (r used j : Z) (pr : pcb) :
  0 <= r -> 0 <= j -> ps !! Z.to_nat r = Some pr ->
  burst_left (load (Some (imap (run_proc_cell r used) ps)) j)
  = if j =? r then burst_left pr - used else burst_left (load (Some ps) j).
Proof.
  intros Hr Hj Hpr. unfold load. rewrite list_lookup_imap.
  destruct (Z.eqb_spec j r) as [->|Hne].
  - rewrite Hpr. cbn. unfold run_proc_cell.
    destruct (Z.eqb_spec (Z.of_nat (Z.to_nat r)) r); [reflexivity | lia].
  - destruct (ps !! Z.to_nat j) as [p|]; cbn; [|reflexivity].
    unfold run_proc_cell. destruct (Z.eqb_spec (Z.of_nat (Z.to_nat j)) r); [lia|].
    unfold waited. destruct (burst_left p >? 0); reflexivity.
Qed.

Lemma rr_loop_as_fcfs (plen quantum : Z) (fuel : nat) :
  0 < quantum ->
  forall (ps : list pcb) (time c : Z),
  valid_table ps plen -> int_table ps -> -1 <= c < plen ->
  (forall j : Z, 0 <= j <= c -> burst_left (load (Some ps) j) <= 0) ->
  (forall j : Z, 0 <= j < plen -> burst_left (load (Some ps) j) <= quantum) ->
  sum_pos (bursts_of ps) < Z.of_nat fuel ->
  exists s' : rr_state,
    rr_loop fuel (mk_rr_state (Some ps) time c) plen quantum = Some s'
    /\ (rr_procs s', rr_time s')
       = fcfs_loop (Z.to_nat (plen - (c + 1))) (c + 1) (Some ps) plen time.
Proof.
  intros Hq. induction fuel as [|fuel IH];
    intros ps time c Hvalid Hint Hc Hbefore Hsmall Hfuel.
  - pose proof (sum_pos_nonneg (bursts_of ps)). lia.
  - cbn [rr_loop].
    destruct (rr_iter_spec ps plen quantum time c Hvalid Hint Hq)
      as [(Hiter & _ & Hall)|(r & pr & Hr & Hpr & Hpos & Hnext & Hiter)]; rewrite Hiter.
    + eexists. split; [reflexivity|]. cbn [rr_procs rr_time].
      rewrite fcfs_loop_finished; [reflexivity|]. intros j _.
      apply load_finished. apply Forall_lookup. exact Hall.
    + assert (Hload : load (Some ps) r = pr) by (apply load_Some_Z; assumption).
      assert (Hgap : c < r /\ forall j : Z, c < j < r -> burst_left (load (Some ps) j) <= 0).
      { destruct (rr_next_cases c (Some ps) plen)
          as (r' & Hnext' & [[Hnone _]|(_ & _ & Hchoice)]);
          rewrite Hnext in Hnext'; injection Hnext' as Heq; subst r'; [lia|].
        assert (c < r) as Hcr.
        { destruct (Z_lt_le_dec c r); [assumption|].
          specialize (Hbefore r ltac:(lia)). rewrite Hload in Hbefore. lia. }
        split; [assumption|]. intros j Hj.
        destruct Hchoice as [[Hout Hleast]|[(Hin & Hne & Hmin)|(Hin & -> & _)]].
        - apply Hleast. lia.
        - destruct (Z_le_gt_dec (burst_left (load (Some ps) j)) 0) as [|Hpj];
            [assumption|]. exfalso.
          specialize (Hmin j ltac:(lia) ltac:(lia) ltac:(lia) Hpj).
          unfold cyc_dist in Hmin. rewrite !Z.mod_small in Hmin by lia. lia.
        - lia. }
      destruct Hgap as [Hcr Hgap].
      assert (Hamount : Z.min quantum (burst_left pr) = burst_left pr).
      { specialize (Hsmall r Hr). rewrite Hload in Hsmall. lia. }
      rewrite Hamount.
      set (ps1 := imap (run_proc_cell r (burst_left pr)) ps).
      assert (Hsum : sum_pos (bursts_of ps1) = sum_pos (bursts_of ps) - burst_left pr).
      { unfold ps1. rewrite (bursts_of_step ps r (burst_left pr) pr) by (auto; lia).
        rewrite (sum_pos_insert _ _ (burst_left pr))
          by (rewrite bursts_of_lookup, Hpr; reflexivity).
        lia. }
      destruct (IH ps1 (int_add time (burst_left pr)) r) as (s' & Hrun & Hres).
      { unfold valid_table, ps1 in *. rewrite length_imap. assumption. }
      { unfold ps1. eapply int_table_step; eauto. lia. }
      { lia. }
      { intros j Hj. unfold ps1. rewrite (load_step_burst ps r _ j pr) by (auto; lia).
        destruct (Z.eqb_spec j r); [lia|].
        destruct (Z_le_gt_dec j c); [apply Hbefore | apply Hgap]; lia. }
      { intros j Hj. unfold ps1. rewrite (load_step_burst ps r _ j pr) by (auto; lia).
        destruct (Z.eqb_spec j r); [lia | apply Hsmall; assumption]. }
      { rewrite Hsum. lia. }
      exists s'. split; [assumption|]. rewrite Hres.
      replace (Z.to_nat (plen - (c + 1)))
        with (Z.to_nat (r - (c + 1)) + S (Z.to_nat (plen - (r + 1))))%nat by lia.
      rewrite fcfs_loop_skip by (intros j Hj; apply Hgap; lia).
      replace (c + 1 + Z.of_nat (Z.to_nat (r - (c + 1)))) with r by lia.
      cbn [fcfs_loop]. rewrite Hload.
      destruct (Z.leb_spec (burst_left pr) 0); [lia|].
      rewrite (run_proc_active ps plen r (burst_left pr) pr) by (auto; lia).
      rewrite Z.min_id. reflexivity.
Qed.

(** X7: on a valid table, when no [burst_left] exceeds the quantum, rr_run
    returns exactly what fcfs_run returns: the same final table (so the same
    waits) and the same time. *)
Theorem rr_run_large_quantum (ps : list pcb) (plen quantum : Z) :
  valid_table ps plen -> int_table ps -> 0 < quantum ->
  Forall (fun p => burst_left p <= quantum) ps ->
  rr_run_returns (Some ps) plen quantum (fcfs_run (Some ps) plen).
Proof.
  intros Hvalid Hint Hq Hsmall.
  destruct (Z_le_gt_dec plen 0) as [Hp|Hp].
  { exists O. intros m _. rewrite invalid_calls_noop_rr by auto.
    unfold fcfs_run. cbn [is_null orb].
    destruct (Z.leb_spec plen 0); [reflexivity | lia]. }
  exists (S (Z.to_nat (sum_pos (bursts_of ps)))). intros m Hm.
  destruct (rr_loop_as_fcfs plen quantum m Hq ps 0 (-1) Hvalid Hint) as (s' & Hrun & Hres).
  - lia.
  - intros j Hj. lia.
  - intros j Hj. destruct (valid_load_lookup ps plen j Hvalid Hj) as (p & Hp' & ->).
    exact (proj1 (Forall_lookup _ _) Hsmall _ _ Hp').
  - pose proof (sum_pos_nonneg (bursts_of ps)). lia.
  - unfold rr_run, fcfs_run. cbn [is_null orb].
    destruct (Z.leb_spec plen 0); [lia|]. destruct (Z.leb_spec quantum 0); [lia|].
    cbn [orb]. rewrite Hrun. f_equal. rewrite Hres. f_equal. lia.
Qed.

Lemma rr_run_large_quantum_witness :
  rr_run_returns (Some [mk_pcb 0 5 0; mk_pcb 1 0 0; mk_pcb 2 8 0]) 3 8
    (fcfs_run (Some [mk_pcb 0 5 0; mk_pcb 1 0 0; mk_pcb 2 8 0]) 3).
Proof.
  apply (rr_run_large_quantum [mk_pcb 0 5 0; mk_pcb 1 0 0; mk_pcb 2 8 0] 3 8).
  - reflexivity.
  - int_table_tac.
  - lia.
  - repeat constructor; simpl; lia.
Defined.

(** ** How many passes the loop of rr_run makes *)

Lemma time_slices_nonneg (quantum : Z) (ps : list pcb) :
  0 < quantum -> 0 <= time_slices quantum ps.
Proof.
  intros Hq. unfold time_slices. induction (bursts_of ps) as [|b l IH]; cbn; [lia|].
  assert (0 <= (Z.max b 0 + quantum - 1) / quantum) by (apply Z.div_pos; lia). lia.
Qed.

Lemma time_slices_finished (quantum : Z) (ps : list pcb) :
  0 < quantum ->
  (forall (k : nat) (p : pcb), ps !! k = Some p -> burst_left p <= 0) ->
  time_slices quantum ps = 0.
Proof.
  intros Hq. unfold time_slices, bursts_of.
  induction ps as [|p ps IH]; intros Hall; cbn; [reflexivity|].
  rewrite IH by (intros k q Hk; apply (Hall (S k) q Hk)).
  pose proof (Hall O p eq_refl). rewrite Z.max_r by lia.
  rewrite Z.div_small; lia.
Qed.

Lemma time_slices_step (quantum : Z) (ps : list pcb) (r : Z) (pr : pcb) :
  0 < quantum -> 0 <= r -> ps !! Z.to_nat r = Some pr -> 0 < burst_left pr ->
  time_slices quantum (imap (run_proc_cell r (Z.min quantum (burst_left pr))) ps)
  = time_slices quantum ps - 1.
Proof.
  intros Hq Hr Hpr Hpos. unfold time_slices.
  rewrite (bursts_of_step ps r _ pr Hr Hpr), list_fmap_insert.
  rewrite (sum_Z_insert _ _ ((Z.max (burst_left pr) 0 + quantum - 1) / quantum))
    by (rewrite list_lookup_fmap, bursts_of_lookup, Hpr; reflexivity).
  destruct (Z_le_gt_dec (burst_left pr) quantum) as [Hle|Hgt].
  - rewrite (Z.min_r quantum) by lia. rewrite Z.sub_diag, Z.max_id.
    rewrite (Z.div_small (0 + quantum - 1)) by lia.
    rewrite Z.max_l by lia.
    replace (burst_left pr + quantum - 1) with (burst_left pr - 1 + 1 * quantum) by lia.
    rewrite Z.div_add, Z.div_small by lia. lia.
  - rewrite (Z.min_l quantum) by lia. rewrite !Z.max_l by lia.
    replace (burst_left pr + quantum - 1)
      with (burst_left pr - quantum + quantum - 1 + 1 * quantum) by lia.
    rewrite Z.div_add by lia. lia.
Qed.

Lemma rr_loop_passes (plen quantum : Z) (fuel : nat) :
  0 < quantum ->
  forall (ps : list pcb) (time current : Z),
  valid_table ps plen -> int_table ps ->
  (rr_loop fuel (mk_rr_state (Some ps) time current) plen quantum = None
   <-> Z.of_nat fuel <= time_slices quantum ps).
Proof.
  intros Hq. induction fuel as [|fuel IH]; intros ps time current Hvalid Hint.
  - pose proof (time_slices_nonneg quantum ps Hq). cbn. split; [lia | reflexivity].
  - cbn [rr_loop].
    destruct (rr_iter_spec ps plen quantum time current Hvalid Hint Hq)
      as [(Hiter & _ & Hall)|(r & pr & Hr & Hpr & Hpos & _ & Hiter)]; rewrite Hiter.
    + rewrite (time_slices_finished quantum ps Hq Hall). split; [discriminate | lia].
    + rewrite IH.
      * rewrite (time_slices_step quantum ps r pr Hq ltac:(lia) Hpr Hpos). lia.
      * unfold valid_table in *. rewrite length_imap. assumption.
      * eapply int_table_step; eauto. lia.
Qed.

(** X8: on a valid non-empty table and with [quantum > 0], the loop of rr_run
    makes exactly one pass per time slice (a process with [burst_left = b > 0]
    takes [b / quantum] slices, rounded up) and one last pass that finds
    nothing to run: [n] passes are too few exactly when [n] is at most the
    number of slices. *)
Theorem rr_run_passes (ps : list pcb) (plen quantum : Z) (n : nat) :
  valid_table ps plen -> int_table ps -> 0 < plen -> 0 < quantum ->
  (rr_run n (Some ps) plen quantum = None <-> Z.of_nat n <= time_slices quantum ps).
Proof.
  intros Hvalid Hint Hp Hq. unfold rr_run. cbn [is_null orb].
  destruct (Z.leb_spec plen 0); [lia|]. destruct (Z.leb_spec quantum 0); [lia|].
  cbn [orb]. rewrite <- (rr_loop_passes plen quantum n Hq ps 0 (-1) Hvalid Hint).
  destruct (rr_loop n _ plen quantum); split; congruence.
Qed.

Lemma rr_run_passes_witness :
  rr_run 5 (Some [mk_pcb 0 5 0; mk_pcb 1 3 0; mk_pcb 2 8 0]) 3 4 = None
  <-> Z.of_nat 5 <= time_slices 4 [mk_pcb 0 5 0; mk_pcb 1 3 0; mk_pcb 2 8 0].
Proof.
  apply (rr_run_passes [mk_pcb 0 5 0; mk_pcb 1 3 0; mk_pcb 2 8 0] 3 4 5).
  - reflexivity.
  - int_table_tac.
  - lia.
  - lia.
Defined.

(** ** No process waits longer than the others run *)

Lemma sum_pos_ge_elem (l : list Z) (k : nat) (b : Z) :
  l !! k = Some b -> Z.max b 0 <= sum_pos l.
Proof.
  revert k. induction l as [|a l IH]; intros [|k] Hk; simpl in *; try discriminate.
  - injection Hk as ->. pose proof (sum_pos_nonneg l).
    destruct (Z.gtb_spec b 0); lia.
  - specialize (IH k Hk). destruct (Z.gtb_spec a 0); lia.
Qed.

Lemma sum_pos_take_elem (l : list Z) (k : nat) (b : Z) :
  l !! k = Some b -> sum_pos (take k l) + Z.max b 0 <= sum_pos l.
Proof.
  revert k. induction l as [|a l IH]; intros [|k] Hk; simpl in *; try discriminate.
  - injection Hk as ->. pose proof (sum_pos_nonneg l).
    destruct (Z.gtb_spec b 0); lia.
  - specialize (IH k Hk). destruct (Z.gtb_spec a 0); lia.
Qed.

Lemma others_pos_nonneg (ps : list pcb) (k : nat) : 0 <= others_pos ps k.
Proof.
  unfold others_pos. destruct (bursts_of ps !! k) as [b|] eqn:Hk; cbn.
  - pose proof (sum_pos_ge_elem _ _ _ Hk). lia.
  - pose proof (sum_pos_nonneg (bursts_of ps)). lia.
Qed.

Lemma wait_step (ps : list pcb) (r used : Z) (pr : pcb) (k : nat) (p : pcb) :
  0 <= r -> ps !! Z.to_nat r = Some pr -> 0 < used <= burst_left pr ->
  ps !! k = Some p -> int_pcb p ->
  wait p + others_pos ps k <= INT_MAX ->
  wait p <= wait (run_proc_cell r used k p)
  /\ wait (run_proc_cell r used k p)
     + others_pos (imap (run_proc_cell r used) ps) k
     <= wait p + others_pos ps k.
Proof.
  intros Hr Hpr Hused Hk (_ & _ & Hw) Hfit. unfold others_pos in *.
  rewrite (bursts_of_step ps r used pr Hr Hpr).
  assert (Hbr : bursts_of ps !! Z.to_nat r = Some (burst_left pr))
    by (rewrite bursts_of_lookup, Hpr; reflexivity).
  assert (Hbk : bursts_of ps !! k = Some (burst_left p))
    by (rewrite bursts_of_lookup, Hk; reflexivity).
  rewrite (sum_pos_insert _ _ (burst_left pr)) by assumption.
  rewrite Hbk in *. cbn [default from_option id] in *.
  unfold run_proc_cell. destruct (Z.eqb_spec (Z.of_nat k) r) as [Heq|Hne].
  - assert (k = Z.to_nat r) as -> by lia. rewrite Hpr in Hk. injection Hk as <-.
    rewrite list_lookup_insert_eq by (eapply lookup_lt_Some; eassumption).
    unfold ran. cbn [wait default from_option id]. lia.
  - rewrite list_lookup_insert_ne by lia. rewrite Hbk. cbn [default from_option id].
    assert (Hroom : Z.max (burst_left p) 0 + burst_left pr <= sum_pos (bursts_of ps)).
    { pose proof (sum_pos_insert (bursts_of ps) (Z.to_nat r) (burst_left pr) 0 Hbr) as Hs.
      assert (Hk0 : <[Z.to_nat r := 0]> (bursts_of ps) !! k = Some (burst_left p))
        by (rewrite list_lookup_insert_ne by lia; assumption).
      pose proof (sum_pos_ge_elem _ _ _ Hk0). lia. }
    unfold waited. destruct (Z.gtb_spec (burst_left p) 0); cbn [wait]; [|lia].
    unfold int_add. rewrite wrap_int_id; [lia|].
    unfold int_range, INT_MIN, INT_MAX in *. lia.
Qed.

Lemma rr_loop_waits (plen quantum : Z) (fuel : nat) :
  0 < quantum ->
  forall (ps : list pcb) (time current : Z) (s' : rr_state),
  valid_table ps plen -> int_table ps ->
  (forall (k : nat) (p : pcb), ps !! k = Some p ->
     wait p + others_pos ps k <= INT_MAX) ->
  rr_loop fuel (mk_rr_state (Some ps) time current) plen quantum = Some s' ->
  exists ps' : list pcb,
    rr_procs s' = Some ps'
    /\ forall (k : nat) (p : pcb), ps !! k = Some p ->
         exists p' : pcb, ps' !! k = Some p'
           /\ wait p <= wait p' <= wait p + others_pos ps k.
Proof.
  intros Hq. induction fuel as [|fuel IH];
    intros ps time current s' Hvalid Hint Hfit Hrun; [discriminate|].
  cbn [rr_loop] in Hrun.
  destruct (rr_iter_spec ps plen quantum time current Hvalid Hint Hq)
    as [(Hiter & _ & Hall)|(r & pr & Hr & Hpr & Hpos & _ & Hiter)];
    rewrite Hiter in Hrun.
  - injection Hrun as <-. exists ps. split; [reflexivity|]. intros k p Hk.
    exists p. split; [assumption|]. pose proof (others_pos_nonneg ps k). lia.
  - set (amount := Z.min quantum (burst_left pr)) in *.
    assert (Hstep : forall (k : nat) (p : pcb), ps !! k = Some p ->
              wait p <= wait (run_proc_cell r amount k p)
              /\ wait (run_proc_cell r amount k p)
                 + others_pos (imap (run_proc_cell r amount) ps) k
                 <= wait p + others_pos ps k).
    { intros k p Hk. apply (wait_step ps r amount pr k p); auto; try lia.
      eapply int_table_lookup; eauto. }
    destruct (IH (imap (run_proc_cell r amount) ps) (int_add time amount) r s')
      as (ps' & Hs' & Hcell); try assumption.
    + unfold valid_table in *. rewrite length_imap. assumption.
    + eapply int_table_step; eauto. lia.
    + intros k p1 Hk1. rewrite list_lookup_imap in Hk1.
      destruct (ps !! k) as [p|] eqn:Hk; [|discriminate]. cbn in Hk1.
      injection Hk1 as <-. specialize (Hfit k p Hk).
      destruct (Hstep k p Hk). lia.
    + exists ps'. split; [assumption|]. intros k p Hk.
      destruct (Hcell k (run_proc_cell r amount k p)) as (p' & Hp' & Hw).
      { rewrite list_lookup_imap, Hk. reflexivity. }
      exists p'. split; [assumption|]. destruct (Hstep k p Hk). lia.
Qed.

(** X9: on a valid table where, for every process, its [wait] plus the total
    positive burst of the other processes fits in an [int], both fcfs_run and
    rr_run (with [quantum > 0]) end with every [wait] at least what it was and
    at most what it was plus the total positive burst of the other
    processes. *)
Theorem waits_are_bounded (ps : list pcb) (plen quantum : Z) :
  valid_table ps plen -> int_table ps -> 0 < quantum ->
  (forall (k : nat) (p : pcb), ps !! k = Some p ->
     wait p + others_pos ps k <= INT_MAX) ->
  (exists (ps' : list pcb) (t : Z),
     fcfs_run (Some ps) plen = (Some ps', t)
     /\ forall (k : nat) (p : pcb), ps !! k = Some p ->
          exists p' : pcb, ps' !! k = Some p'
            /\ wait p <= wait p' <= wait p + others_pos ps k)
  /\ (exists (ps' : list pcb) (t : Z),
        rr_run_returns (Some ps) plen quantum (Some ps', t)
        /\ forall (k : nat) (p : pcb), ps !! k = Some p ->
             exists p' : pcb, ps' !! k = Some p'
               /\ wait p <= wait p' <= wait p + others_pos ps k).
Proof.
  intros Hvalid Hint Hq Hfit. split.
  - destruct (fcfs_run_spec ps plen Hvalid Hint) as (ps' & Hrun & _ & Hfin).
    exists ps', (wrap_int (sum_pos (bursts_of ps))). split; [assumption|].
    intros k p Hk. eexists. split; [apply Hfin, Hk|].
    specialize (Hfit k p Hk). pose proof (others_pos_nonneg ps k) as Hnn.
    destruct (int_table_lookup _ _ _ Hint Hk) as (_ & _ & Hw).
    assert (Hbk : bursts_of ps !! k = Some (burst_left p))
      by (rewrite bursts_of_lookup, Hk; reflexivity).
    pose proof (sum_pos_take_elem _ _ _ Hbk) as Htake.
    pose proof (sum_pos_nonneg (take k (bursts_of ps))) as Htk.
    unfold others_pos in *. rewrite Hbk in *. cbn [default from_option id] in *.
    unfold fcfs_cell. destruct (Z.gtb_spec (burst_left p) 0); cbn [wait]; [|lia].
    rewrite wrap_int_id; [lia|]. unfold int_range, INT_MIN, INT_MAX in *. lia.
  - destruct (Z_le_gt_dec plen 0) as [Hp|Hp].
    + exists ps, 0. split.
      * exists O. intros m _. apply invalid_calls_noop_rr. auto.
      * intros k p Hk. exists p. split; [assumption|].
        pose proof (others_pos_nonneg ps k). lia.
    + destruct (rr_run_spec ps plen quantum Hvalid Hint ltac:(lia) Hq)
        as (ps' & Hrun & _ & _).
      exists ps', (wrap_int (sum_pos (bursts_of ps))). split; [assumption|].
      destruct Hrun as (n & Hn). specialize (Hn n (le_n n)).
      unfold rr_run in Hn. cbn [is_null orb] in Hn.
      destruct (Z.leb_spec plen 0); [lia|]. destruct (Z.leb_spec quantum 0); [lia|].
      cbn [orb] in Hn.
      destruct (rr_loop n (mk_rr_state (Some ps) 0 (-1)) plen quantum) as [s'|] eqn:Hloop;
        [|discriminate].
      destruct (rr_loop_waits plen quantum n Hq ps 0 (-1) s' Hvalid Hint Hfit Hloop)
        as (ps'' & Hs' & Hcell).
      injection Hn as Hn _. rewrite Hs' in Hn. injection Hn as ->. exact Hcell.
Qed.

Lemma waits_are_bounded_witness :
  let ps := [mk_pcb 0 5 0; mk_pcb 1 3 0] in
  (exists (ps' : list pcb) (t : Z),
     fcfs_run (Some ps) 2 = (Some ps', t)
     /\ forall (k : nat) (p : pcb), ps !! k = Some p ->
          exists p' : pcb, ps' !! k = Some p'
            /\ wait p <= wait p' <= wait p + others_pos ps k)
  /\ (exists (ps' : list pcb) (t : Z),
        rr_run_returns (Some ps) 2 2 (Some ps', t)
        /\ forall (k : nat) (p : pcb), ps !! k = Some p ->
             exists p' : pcb, ps' !! k = Some p'
               /\ wait p <= wait p' <= wait p + others_pos ps k).
Proof.
  apply (waits_are_bounded [mk_pcb 0 5 0; mk_pcb 1 3 0] 2 2).
  - reflexivity.
  - int_table_tac.
  - lia.
  - intros [|[|k]] p Hk; simpl in Hk; try discriminate;
      injection Hk as <-; unfold INT_MAX; vm_compute; discriminate.
Defined.

(** * The programs around the engine *)

(** ** The printing and summing loops *)

Lemma cells_by_index {A : Type} (h : pcb -> A) (ps : list pcb) :
  (fun k : nat => h (load (Some ps) (Z.of_nat k))) <$> seq 0 (length ps) = h <$> ps.
Proof.
  apply list_eq. intros k. rewrite !list_lookup_fmap.
  destruct (ps !! k) as [p|] eqn:Hk.
  - rewrite lookup_seq_lt by (eapply lookup_lt_Some; eauto).
    cbn [fmap option_fmap option_map Nat.add].
    rewrite (load_Some _ _ _ Hk). reflexivity.
  - rewrite lookup_seq_ge by (apply lookup_ge_None; assumption). reflexivity.
Qed.

Lemma printall_loop_spec (procs : option (list pcb)) (n : nat) :
  forall (i : nat) (stdout : list string),
  printall_loop n (Z.of_nat i) procs stdout
  = stdout ++ ((fun k : nat => printall_line (load procs (Z.of_nat k))) <$> seq i n).
Proof.
  induction n as [|n IH]; intros i stdout; cbn [printall_loop seq fmap list_fmap].
  - rewrite app_nil_r. reflexivity.
  - replace (Z.of_nat i + 1) with (Z.of_nat (S i)) by lia.
    rewrite IH, <- app_assoc. reflexivity.
Qed.

Lemma main_sum_loop_spec (procs : option (list pcb)) (n : nat) :
  forall (i : nat) (terms : list Z),
  main_sum_loop n (Z.of_nat i) procs terms
  = terms ++ ((fun k : nat => wait (load procs (Z.of_nat k))) <$> seq i n).
Proof.
  induction n as [|n IH]; intros i terms; cbn [main_sum_loop seq fmap list_fmap].
  - rewrite app_nil_r. reflexivity.
  - replace (Z.of_nat i + 1) with (Z.of_nat (S i)) by lia.
    rewrite IH, <- app_assoc. reflexivity.
Qed.

Lemma main_accept_loop_spec (bursts : option (list Z)) (n : nat) :
  forall (i : nat) (stdout : list string),
  main_accept_loop n (Z.of_nat i) bursts stdout
  = stdout
    ++ ((fun k : nat => accepted_line (Z.of_nat k) (load_int bursts (Z.of_nat k)))
        <$> seq i n).
Proof.
  induction n as [|n IH]; intros i stdout; cbn [main_accept_loop seq fmap list_fmap].
  - rewrite app_nil_r. reflexivity.
  - replace (Z.of_nat i + 1) with (Z.of_nat (S i)) by lia.
    rewrite IH, <- app_assoc. reflexivity.
Qed.

(** X10: printall writes nothing for a NULL table or [plen <= 0]; on a valid
    table it appends to the standard output one line per PCB, in index order,
    each showing the pid, the [burst_left] and the [wait] of that PCB. *)
Theorem printall_output (procs : option (list pcb)) (plen : Z) (stdout : list string) :
  (procs = None \/ plen <= 0 -> printall procs plen stdout = stdout)
  /\ (forall ps : list pcb, procs = Some ps -> valid_table ps plen ->
      printall procs plen stdout = stdout ++ (printall_line <$> ps)).
Proof.
  split.
  - intros [->|Hp]; [reflexivity|]. unfold printall.
    destruct (is_null procs); [reflexivity|]. cbn [orb].
    destruct (Z.leb_spec plen 0); [reflexivity | lia].
  - intros ps -> Hvalid. unfold valid_table in Hvalid. unfold printall. cbn [is_null orb].
    destruct (Z.leb_spec plen 0) as [Hp|Hp].
    + destruct ps; [|simpl in Hvalid; lia]. cbn. rewrite app_nil_r. reflexivity.
    + change 0 with (Z.of_nat 0) at 1.
      rewrite (printall_loop_spec (Some ps) (Z.to_nat plen) 0 stdout).
      replace (Z.to_nat plen) with (length ps) by lia.
      rewrite (cells_by_index printall_line ps). reflexivity.
Qed.

Lemma printall_output_witness :
  printall (Some [mk_pcb 0 5 0; mk_pcb 1 (-3) 2]) 2 []
  = [] ++ (printall_line <$> [mk_pcb 0 5 0; mk_pcb 1 (-3) 2]).
Proof.
  destruct (printall_output (Some [mk_pcb 0 5 0; mk_pcb 1 (-3) 2]) 2 []) as [_ H].
  apply (H [mk_pcb 0 5 0; mk_pcb 1 (-3) 2]); reflexivity.
Defined.

(** ** main: reading the command line *)

Lemma main_accept_loop_0 (bursts : option (list Z)) (n : nat) (stdout : list string) :
  main_accept_loop n 0 bursts stdout
  = stdout
    ++ ((fun k : nat => accepted_line (Z.of_nat k) (load_int bursts (Z.of_nat k)))
        <$> seq 0 n).
Proof. apply (main_accept_loop_spec bursts n 0 stdout). Qed.

Lemma main_accept_loop_all (bs : list Z) (stdout : list string) :
  main_accept_loop (length bs) 0 (Some bs) stdout
  = stdout ++ imap (fun i b => accepted_line (Z.of_nat i) b) bs.
Proof.
  rewrite main_accept_loop_0. f_equal. apply list_eq. intros k.
  rewrite list_lookup_fmap, list_lookup_imap.
  destruct (bs !! k) as [b|] eqn:Hk.
  - rewrite lookup_seq_lt by (eapply lookup_lt_Some; eauto).
    cbn [fmap option_fmap option_map Nat.add]. unfold load_int.
    rewrite Nat2Z.id, Hk. reflexivity.
  - rewrite lookup_seq_ge by (apply lookup_ge_None; assumption). reflexivity.
Qed.

Lemma main_sum_loop_all (ps : list pcb) :
  main_sum_loop (length ps) 0 (Some ps) [] = wait <$> ps.
Proof.
  pose proof (main_sum_loop_spec (Some ps) (length ps) 0 []) as H.
  change (Z.of_nat 0) with 0 in H. rewrite H, app_nil_l.
  apply (cells_by_index wait ps).
Qed.

Lemma main_parse_loop_spec (atoi : string -> Z) (argv : list string) (first : nat)
    (n : nat) :
  forall (i : nat) (bs : list Z),
  (i + n <= length bs)%nat ->
  exists bs' : list Z,
    main_parse_loop atoi argv (Z.of_nat first) n (Z.of_nat i) (Some bs) = Some bs'
    /\ length bs' = length bs
    /\ forall k : nat,
         bs' !! k = if decide (i <= k < i + n)%nat
                    then Some (atoi (default EmptyString (argv !! (first + k)%nat)))
                    else bs !! k.
Proof.
  induction n as [|n IH]; intros i bs Hlen.
  - exists bs. cbn. repeat split. intros k. destruct (decide _); [lia | reflexivity].
  - cbn [main_parse_loop]. unfold store_int, arg.
    replace (Z.to_nat (Z.of_nat first + Z.of_nat i)) with (first + i)%nat by lia.
    rewrite Nat2Z.id. replace (Z.of_nat i + 1) with (Z.of_nat (S i)) by lia.
    destruct (IH (S i) (<[i := atoi (default EmptyString (argv !! (first + i)%nat))]> bs))
      as (bs' & Hrun & Hl & Hcell); [rewrite length_insert; lia|].
    exists bs'. rewrite length_insert in Hl. repeat split; auto.
    intros k. rewrite Hcell. destruct (decide (k = i)) as [->|Hne].
    + rewrite list_lookup_insert_eq by lia. repeat destruct (decide _); auto; lia.
    + rewrite list_lookup_insert_ne by auto. repeat destruct (decide _); auto; lia.
Qed.

Lemma main_parse_loop_all (atoi : string -> Z) (argv : list string) (first : nat)
    (bs : list Z) :
  (first + length bs = length argv)%nat ->
  main_parse_loop atoi argv (Z.of_nat first) (length bs) 0 (Some bs)
  = Some (atoi <$> drop first argv).
Proof.
  intros Hlen.
  destruct (main_parse_loop_spec atoi argv first (length bs) 0 bs) as (bs' & Hrun & Hl & Hcell);
    [lia|].
  change (Z.of_nat 0) with 0 in Hrun. rewrite Hrun. f_equal.
  apply list_eq. intros k. rewrite Hcell, list_lookup_fmap, lookup_drop.
  destruct (decide _) as [Hk|Hk].
  - destruct (lookup_lt_is_Some_2 argv (first + k)) as [a Ha]; [lia|].
    rewrite Ha. reflexivity.
  - rewrite (proj2 (lookup_ge_None argv (first + k))) by lia.
    cbn. apply lookup_ge_None. lia.
Qed.

(** ** main: what it prints and returns *)

(** X11: main ends with status 1 after printing exactly the line
    "ERROR: Missing arguments" on the standard output (and nothing on the
    standard error) if and only if there are fewer than 3 arguments, or the
    first argument is neither "fcfs" nor "rr", or it is "rr" and there are
    fewer than 4 arguments. *)
Theorem main_usage_error (atoi : string -> Z) (show_avg : list Z -> Z -> string)
    (fuel : nat) (bursts_block : option (list Z)) (procs_block : option (list pcb))
    (argv : list string) :
  main atoi show_avg fuel bursts_block procs_block argv
  = Some (mk_main_result 1 [err_missing] [])
  <-> ((length argv < 3)%nat
       \/ (arg argv 1 <> "fcfs" /\ arg argv 1 <> "rr")
       \/ (arg argv 1 = "rr" /\ (length argv < 4)%nat)).
Proof.
  unfold main. destruct (Z.ltb_spec (Z.of_nat (length argv)) 3) as [Hc|Hc].
  { split; [intros _; left; lia | reflexivity]. }
  destruct (String.eqb_spec (arg argv 1) "fcfs") as [Hf|Hf].
  { destruct (is_null bursts_block).
    - split; [discriminate|]. intros [H|[[H _]|[H _]]]; [lia | congruence | congruence].
    - destruct (is_null (init_procs _ _ _)).
      + split; [discriminate|].
        intros [H|[[H _]|[H _]]]; [lia | congruence | congruence].
      + split; [discriminate|].
        intros [H|[[H _]|[H _]]]; [lia | congruence | congruence]. }
  destruct (String.eqb_spec (arg argv 1) "rr") as [Hr|Hr].
  { destruct (Z.ltb_spec (Z.of_nat (length argv)) 4) as [Hc4|Hc4].
    { split; [intros _; right; right; split; [assumption | lia] | reflexivity]. }
    destruct (is_null bursts_block).
    - split; [discriminate|]. intros [H|[[_ H]|[_ H]]]; [lia | congruence | lia].
    - destruct (is_null (init_procs _ _ _)).
      + split; [discriminate|]. intros [H|[[_ H]|[_ H]]]; [lia | congruence | lia].
      + destruct (rr_run _ _ _ _) as [[procs' t]|];
          (split; [discriminate|]);
          intros [H|[[_ H]|[_ H]]]; [lia | congruence | lia | lia | congruence | lia]. }
  split; [intros _; right; left; split; assumption | reflexivity].
Qed.

Lemma main_fcfs_steps (atoi : string -> Z) (show_avg : list Z -> Z -> string)
    (fuel : nat) (bursts_block : list Z) (procs_block : option (list pcb))
    (prog : string) (args : list string) :
  args <> [] -> length bursts_block = length args ->
  main atoi show_avg fuel (Some bursts_block) procs_block (prog :: "fcfs" :: args)
  = let bursts := atoi <$> args in
    let plen := Z.of_nat (length args) in
    let stdout :=
      ["Using FCFS" +:+ nl +:+ nl] ++ imap (fun i b => accepted_line (Z.of_nat i) b) bursts in
    match init_procs procs_block (Some bursts) plen with
    | None => Some (mk_main_result 1 stdout [err_init])
    | Some ps =>
        let terms :=
          main_sum_loop (length args) 0 (fst (fcfs_run (Some ps) plen)) [] in
        Some (mk_main_result 0 (stdout ++ [average_line show_avg terms plen]) [])
    end.
Proof.
  intros Hne Hblock. unfold main. cbn [length].
  assert (0 < length args)%nat by (destruct args; [congruence | simpl; lia]).
  destruct (Z.ltb_spec (Z.of_nat (S (S (length args)))) 3); [lia|].
  change (arg (prog :: "fcfs" :: args) 1) with "fcfs". cbn [String.eqb Ascii.eqb Bool.eqb].
  cbn [is_null].
  replace (Z.of_nat (S (S (length args))) - 2) with (Z.of_nat (length args)) by lia.
  rewrite Nat2Z.id.
  pose proof (main_parse_loop_all atoi (prog :: "fcfs" :: args) 2 bursts_block) as Hparse.
  rewrite Hblock in Hparse. change (Z.of_nat 2) with 2 in Hparse.
  rewrite Hparse by (simpl; lia). cbn [drop]. rewrite drop_0.
  pose proof (main_accept_loop_all (atoi <$> args)) as Hacc.
  rewrite length_fmap in Hacc. rewrite Hacc.
  destruct (init_procs procs_block (Some (atoi <$> args)) (Z.of_nat (length args)));
    cbn [is_null]; reflexivity.
Qed.

Lemma main_rr_steps (atoi : string -> Z) (show_avg : list Z -> Z -> string)
    (fuel : nat) (bursts_block : list Z) (procs_block : option (list pcb))
    (prog q : string) (args : list string) :
  args <> [] -> length bursts_block = length args ->
  main atoi show_avg fuel (Some bursts_block) procs_block (prog :: "rr" :: q :: args)
  = let bursts := atoi <$> args in
    let plen := Z.of_nat (length args) in
    let quantum := atoi q in
    let stdout :=
      ["Using RR(" +:+ pretty quantum +:+ ")." +:+ nl +:+ nl]
      ++ imap (fun i b => accepted_line (Z.of_nat i) b) bursts in
    match init_procs procs_block (Some bursts) plen with
    | None => Some (mk_main_result 1 stdout [err_init])
    | Some ps =>
        match rr_run fuel (Some ps) plen quantum with
        | None => None
        | Some (procs, _) =>
            let terms := main_sum_loop (length args) 0 procs [] in
            Some (mk_main_result 0 (stdout ++ [average_line show_avg terms plen]) [])
        end
    end.
Proof.
  intros Hne Hblock. unfold main. cbn [length].
  assert (0 < length args)%nat by (destruct args; [congruence | simpl; lia]).
  destruct (Z.ltb_spec (Z.of_nat (S (S (S (length args))))) 3); [lia|].
  change (arg (prog :: "rr" :: q :: args) 1) with "rr".
  change (arg (prog :: "rr" :: q :: args) 2) with q.
  cbn [String.eqb Ascii.eqb Bool.eqb].
  destruct (Z.ltb_spec (Z.of_nat (S (S (S (length args))))) 4); [lia|].
  cbn [is_null].
  replace (Z.of_nat (S (S (S (length args)))) - 3) with (Z.of_nat (length args)) by lia.
  rewrite Nat2Z.id.
  pose proof (main_parse_loop_all atoi (prog :: "rr" :: q :: args) 3 bursts_block) as Hparse.
  rewrite Hblock in Hparse. change (Z.of_nat 3) with 3 in Hparse.
  rewrite Hparse by (simpl; lia). cbn [drop]. rewrite drop_0.
  pose proof (main_accept_loop_all (atoi <$> args)) as Hacc.
  rewrite length_fmap in Hacc. rewrite Hacc.
  destruct (init_procs procs_block (Some (atoi <$> args)) (Z.of_nat (length args)));
    cbn [is_null]; reflexivity.
Qed.

Lemma fcfs_fresh_waits (bursts : list Z) :
  Forall int_range bursts -> Z.of_nat (length bursts) <= INT_MAX ->
  exists (ps' : list pcb) (t : Z),
    fcfs_run (Some (fresh_table bursts)) (Z.of_nat (length bursts)) = (Some ps', t)
    /\ length ps' = length bursts
    /\ wait <$> ps'
       = imap (fun i b => if b >? 0 then wrap_int (sum_pos (take i bursts)) else 0) bursts.
Proof.
  intros Hint Hlen.
  destruct (fcfs_run_spec _ _ (fresh_table_valid bursts) (fresh_table_int bursts Hint Hlen))
    as (ps' & Hrun & Hl & Hfin).
  rewrite fresh_table_bursts in Hrun, Hfin.
  assert (Hl' : length ps' = length bursts).
  { rewrite Hl. unfold fresh_table. apply length_imap. }
  exists ps', (wrap_int (sum_pos bursts)). split; [assumption|]. split; [assumption|].
  apply list_eq. intros k. rewrite list_lookup_fmap, list_lookup_imap.
  destruct (bursts !! k) as [b|] eqn:Hk.
  - rewrite (Hfin k (mk_pcb (Z.of_nat k) b 0))
      by (rewrite fresh_table_lookup, Hk; reflexivity).
    cbn. unfold fcfs_cell. cbn [burst_left pid wait].
    destruct (b >? 0); cbn [wait]; rewrite ?Z.add_0_l; reflexivity.
  - rewrite (proj2 (lookup_ge_None ps' k)); [reflexivity|].
    rewrite Hl'. apply lookup_ge_None. assumption.
Qed.

(** X12: called as [prog fcfs b0 b1 ...] with at least one burst, allocations
    that succeed and bursts that atoi reads as [int]s, main returns 0, writes
    nothing to the standard error, and prints the banner, one "Accepted" line
    per burst with its index and value, and the average line; the waits that
    enter the average are, for each process, the sum of the positive bursts
    before it when its own burst is positive, and 0 otherwise. *)
Theorem main_fcfs_output (atoi : string -> Z) (show_avg : list Z -> Z -> string)
    (fuel : nat) (bursts_block : list Z) (procs_block : list pcb)
    (prog : string) (args : list string) :
  args <> [] ->
  length bursts_block = length args -> length procs_block = length args ->
  Forall (fun a => int_range (atoi a)) args -> Z.of_nat (length args) <= INT_MAX ->
  let bursts := atoi <$> args in
  let waits :=
    imap (fun i b => if b >? 0 then wrap_int (sum_pos (take i bursts)) else 0) bursts in
  main atoi show_avg fuel (Some bursts_block) (Some procs_block)
    (prog :: "fcfs" :: args)
  = Some (mk_main_result 0
            (["Using FCFS" +:+ nl +:+ nl]
             ++ imap (fun i b => accepted_line (Z.of_nat i) b) bursts
             ++ [average_line show_avg waits (Z.of_nat (length args))])
            []).
Proof.
  intros Hne Hbb Hpb Hint Hlen bursts waits.
  rewrite main_fcfs_steps by assumption. cbv zeta. fold bursts.
  assert (Hlb : length bursts = length args) by (unfold bursts; apply length_fmap).
  assert (Hbne : bursts <> []) by (unfold bursts; destruct args; [congruence | discriminate]).
  rewrite <- Hlb.
  rewrite (init_procs_fresh procs_block bursts Hbne) by congruence.
  destruct (fcfs_fresh_waits bursts) as (ps' & t & Hrun & Hl & Hwaits).
  { unfold bursts. apply Forall_fmap. exact Hint. }
  { rewrite Hlb. assumption. }
  rewrite Hrun. cbn [fst]. rewrite <- Hl, main_sum_loop_all, Hwaits.
  rewrite <- app_assoc. reflexivity.
Qed.

Lemma main_fcfs_output_witness :
  let atoi := fun s : string => if String.eqb s "5" then 5 else 3 in
  let show_avg := fun (terms : list Z) (plen : Z) => pretty (sum_Z terms) in
  let bursts := atoi <$> ["5"; "3"] in
  let waits :=
    imap (fun i b => if b >? 0 then wrap_int (sum_pos (take i bursts)) else 0) bursts in
  main atoi show_avg 0 (Some [0; 0]) (Some [pcb0; pcb0]) ["prog"; "fcfs"; "5"; "3"]
  = Some (mk_main_result 0
            (["Using FCFS" +:+ nl +:+ nl]
             ++ imap (fun i b => accepted_line (Z.of_nat i) b) bursts
             ++ [average_line show_avg waits (Z.of_nat (length ["5"; "3"]))])
            []).
Proof.
  apply (main_fcfs_output (fun s : string => if String.eqb s "5" then 5 else 3)
           (fun (terms : list Z) (plen : Z) => pretty (sum_Z terms))
           0 [0; 0] [pcb0; pcb0] "prog" ["5"; "3"]).
  - discriminate.
  - reflexivity.
  - reflexivity.
  - repeat constructor; vm_compute; discriminate.
  - unfold INT_MAX. simpl. lia.
Defined.

(** X13: called as [prog rr q b0 b1 ...] with at least one burst, a quantum
    that atoi reads as positive, allocations that succeed and bursts that atoi
    reads as [int]s, main returns 0 and prints the banner with the quantum,
    one "Accepted" line per burst and the average line, the average being
    taken over the waits of the table rr_run leaves. *)
Theorem main_rr_output (atoi : string -> Z) (show_avg : list Z -> Z -> string)
    (bursts_block : list Z) (procs_block : list pcb)
    (prog q : string) (args : list string) :
  args <> [] ->
  length bursts_block = length args -> length procs_block = length args ->
  Forall (fun a => int_range (atoi a)) args -> Z.of_nat (length args) <= INT_MAX ->
  0 < atoi q ->
  let bursts := atoi <$> args in
  let plen := Z.of_nat (length args) in
  exists (ps' : list pcb) (t : Z),
    rr_run_returns (Some (fresh_table bursts)) plen (atoi q) (Some ps', t)
    /\ exists n : nat, forall fuel : nat, (n <= fuel)%nat ->
         main atoi show_avg fuel (Some bursts_block) (Some procs_block)
           (prog :: "rr" :: q :: args)
         = Some (mk_main_result 0
                   (["Using RR(" +:+ pretty (atoi q) +:+ ")." +:+ nl +:+ nl]
                    ++ imap (fun i b => accepted_line (Z.of_nat i) b) bursts
                    ++ [average_line show_avg (wait <$> ps') plen])
                   []).
Proof.
  intros Hne Hbb Hpb Hint Hlen Hq bursts plen.
  assert (Hlb : length bursts = length args) by (unfold bursts; apply length_fmap).
  assert (Hbne : bursts <> []) by (unfold bursts; destruct args; [congruence | discriminate]).
  assert (Hib : Forall int_range bursts) by (unfold bursts; apply Forall_fmap; exact Hint).
  assert (Hp : 0 < plen) by (unfold plen; destruct args; [congruence | simpl; lia]).
  pose proof (fresh_table_valid bursts) as Hvalid. rewrite Hlb in Hvalid.
  pose proof (fresh_table_int bursts Hib ltac:(rewrite Hlb; assumption)) as Hitab.
  destruct (rr_run_spec (fresh_table bursts) plen (atoi q) Hvalid Hitab Hp Hq)
    as (ps' & Hrun & Hl & _).
  exists ps', (wrap_int (sum_pos (bursts_of (fresh_table bursts)))).
  split; [assumption|]. destruct Hrun as (n & Hn). exists n. intros fuel Hfuel.
  rewrite main_rr_steps by assumption. cbv zeta. fold bursts. fold plen.
  unfold plen at 1. rewrite <- Hlb.
  rewrite (init_procs_fresh procs_block bursts Hbne) by congruence.
  rewrite Hlb. fold plen. rewrite (Hn fuel Hfuel).
  assert (Hl' : length args = length ps').
  { rewrite Hl. unfold fresh_table. rewrite length_imap. congruence. }
  rewrite Hl', main_sum_loop_all, <- app_assoc. reflexivity.
Qed.

Lemma main_rr_output_witness :
  let atoi := fun s : string => if String.eqb s "5" then 5 else 3 in
  let show_avg := fun (terms : list Z) (plen : Z) => pretty (sum_Z terms) in
  let bursts := atoi <$> ["5"; "3"] in
  exists (ps' : list pcb) (t : Z),
    rr_run_returns (Some (fresh_table bursts)) 2 (atoi "3") (Some ps', t)
    /\ exists n : nat, forall fuel : nat, (n <= fuel)%nat ->
         main atoi show_avg fuel (Some [0; 0]) (Some [pcb0; pcb0])
           ["prog"; "rr"; "3"; "5"; "3"]
         = Some (mk_main_result 0
                   (["Using RR(" +:+ pretty (atoi "3") +:+ ")." +:+ nl +:+ nl]
                    ++ imap (fun i b => accepted_line (Z.of_nat i) b) bursts
                    ++ [average_line show_avg (wait <$> ps') 2])
                   []).
Proof.
  apply (main_rr_output (fun s : string => if String.eqb s "5" then 5 else 3)
           (fun (terms : list Z) (plen : Z) => pretty (sum_Z terms))
           [0; 0] [pcb0; pcb0] "prog" "3" ["5"; "3"]).
  - discriminate.
  - reflexivity.
  - reflexivity.
  - repeat constructor; vm_compute; discriminate.
  - unfold INT_MAX. simpl. lia.
  - simpl. lia.
Defined.

Lemma fresh_table_waits (bursts : list Z) :
  wait <$> fresh_table bursts = replicate (length bursts) 0.
Proof.
  induction bursts as [|b bursts IH] using rev_ind; [reflexivity|].
  unfold fresh_table in *. rewrite imap_app, fmap_app, IH, length_app. cbn.
  rewrite Nat.add_1_r. symmetry. apply replicate_S_end.
Qed.

(** X14: called as [prog rr q b0 b1 ...] with a quantum that atoi reads as 0
    or negative, main simulates nothing: whatever the bursts, it returns 0 and
    prints the banner, the "Accepted" lines and an average taken over waits
    that are all 0. *)
Theorem main_rr_without_quantum (atoi : string -> Z) (show_avg : list Z -> Z -> string)
    (fuel : nat) (bursts_block : list Z) (procs_block : list pcb)
    (prog q : string) (args : list string) :
  args <> [] ->
  length bursts_block = length args -> length procs_block = length args ->
  atoi q <= 0 ->
  main atoi show_avg fuel (Some bursts_block) (Some procs_block)
    (prog :: "rr" :: q :: args)
  = Some (mk_main_result 0
            (["Using RR(" +:+ pretty (atoi q) +:+ ")." +:+ nl +:+ nl]
             ++ imap (fun i b => accepted_line (Z.of_nat i) b) (atoi <$> args)
             ++ [average_line show_avg (replicate (length args) 0)
                   (Z.of_nat (length args))])
            []).
Proof.
  intros Hne Hbb Hpb Hq.
  rewrite main_rr_steps by assumption. cbv zeta.
  assert (Hlb : length (atoi <$> args) = length args) by apply length_fmap.
  assert (Hbne : atoi <$> args <> []) by (destruct args; [congruence | discriminate]).
  rewrite <- Hlb at 1.
  rewrite (init_procs_fresh procs_block (atoi <$> args) Hbne) by congruence.
  rewrite invalid_calls_noop_rr by auto.
  assert (Hl : length args = length (fresh_table (atoi <$> args))).
  { unfold fresh_table. rewrite length_imap. congruence. }
  rewrite Hl at 1. rewrite main_sum_loop_all, fresh_table_waits, Hlb, <- app_assoc.
  reflexivity.
Qed.

Lemma main_rr_without_quantum_witness :
  let atoi := fun s : string => if String.eqb s "5" then 5 else 0 in
  let show_avg := fun (terms : list Z) (plen : Z) => pretty (sum_Z terms) in
  main atoi show_avg 0 (Some [0; 0]) (Some [pcb0; pcb0]) ["prog"; "rr"; "x"; "5"; "5"]
  = Some (mk_main_result 0
            (["Using RR(" +:+ pretty (atoi "x") +:+ ")." +:+ nl +:+ nl]
             ++ imap (fun i b => accepted_line (Z.of_nat i) b) (atoi <$> ["5"; "5"])
             ++ [average_line show_avg (replicate (length ["5"; "5"]) 0)
                   (Z.of_nat (length ["5"; "5"]))])
            []).
Proof.
  apply (main_rr_without_quantum (fun s : string => if String.eqb s "5" then 5 else 0)
           (fun (terms : list Z) (plen : Z) => pretty (sum_Z terms))
           0 [0; 0] [pcb0; pcb0] "prog" "x" ["5"; "5"]).
  - discriminate.
  - reflexivity.
  - reflexivity.
  - simpl. lia.
Defined.

(** X15: when an allocation fails, main returns 1.  If its own allocation of
    the bursts fails it prints nothing and writes "ERROR: Memory allocation
    failed" to the standard error; if the allocation inside init_procs fails,
    the banner and the "Accepted" lines are already on the standard output
    and "ERROR: Failed to initialize processes" goes to the standard error. *)
Theorem main_allocation_failure (atoi : string -> Z) (show_avg : list Z -> Z -> string)
    (fuel : nat) (bursts_block : list Z) (procs_block : option (list pcb))
    (prog q : string) (args : list string) :
  args <> [] -> length bursts_block = length args ->
  main atoi show_avg fuel None procs_block (prog :: "fcfs" :: args)
  = Some (mk_main_result 1 [] [err_alloc])
  /\ main atoi show_avg fuel None procs_block (prog :: "rr" :: q :: args)
     = Some (mk_main_result 1 [] [err_alloc])
  /\ main atoi show_avg fuel (Some bursts_block) None (prog :: "fcfs" :: args)
     = Some (mk_main_result 1
               (["Using FCFS" +:+ nl +:+ nl]
                ++ imap (fun i b => accepted_line (Z.of_nat i) b) (atoi <$> args))
               [err_init])
  /\ main atoi show_avg fuel (Some bursts_block) None (prog :: "rr" :: q :: args)
     = Some (mk_main_result 1
               (["Using RR(" +:+ pretty (atoi q) +:+ ")." +:+ nl +:+ nl]
                ++ imap (fun i b => accepted_line (Z.of_nat i) b) (atoi <$> args))
               [err_init]).
Proof.
  intros Hne Hbb.
  assert (0 < length args)%nat by (destruct args; [congruence | simpl; lia]).
  assert (Hinit : init_procs None (Some (atoi <$> args)) (Z.of_nat (length args)) = None).
  { unfold init_procs. destruct (_ <=? _); reflexivity. }
  split; [|split; [|split]].
  - unfold main. cbn [length].
    destruct (Z.ltb_spec (Z.of_nat (S (S (length args)))) 3); [lia|].
    change (arg (prog :: "fcfs" :: args) 1) with "fcfs". reflexivity.
  - unfold main. cbn [length].
    destruct (Z.ltb_spec (Z.of_nat (S (S (S (length args))))) 3); [lia|].
    change (arg (prog :: "rr" :: q :: args) 1) with "rr".
    cbn [String.eqb Ascii.eqb Bool.eqb].
    destruct (Z.ltb_spec (Z.of_nat (S (S (S (length args))))) 4); [lia|]. reflexivity.
  - rewrite main_fcfs_steps by assumption. cbv zeta. rewrite Hinit. reflexivity.
  - rewrite main_rr_steps by assumption. cbv zeta. rewrite Hinit. reflexivity.
Qed.

Lemma main_allocation_failure_witness :
  let atoi := fun s : string => if String.eqb s "5" then 5 else 3 in
  let show_avg := fun (terms : list Z) (plen : Z) => pretty (sum_Z terms) in
  main atoi show_avg 0 None None ["prog"; "fcfs"; "5"; "3"]
  = Some (mk_main_result 1 [] [err_alloc])
  /\ main atoi show_avg 0 None None ["prog"; "rr"; "3"; "5"; "3"]
     = Some (mk_main_result 1 [] [err_alloc])
  /\ main atoi show_avg 0 (Some [0; 0]) None ["prog"; "fcfs"; "5"; "3"]
     = Some (mk_main_result 1
               (["Using FCFS" +:+ nl +:+ nl]
                ++ imap (fun i b => accepted_line (Z.of_nat i) b) (atoi <$> ["5"; "3"]))
               [err_init])
  /\ main atoi show_avg 0 (Some [0; 0]) None ["prog"; "rr"; "3"; "5"; "3"]
     = Some (mk_main_result 1
               (["Using RR(" +:+ pretty (atoi "3") +:+ ")." +:+ nl +:+ nl]
                ++ imap (fun i b => accepted_line (Z.of_nat i) b) (atoi <$> ["5"; "3"]))
               [err_init]).
Proof.
  apply (main_allocation_failure (fun s : string => if String.eqb s "5" then 5 else 3)
           (fun (terms : list Z) (plen : Z) => pretty (sum_Z terms))
           0 [0; 0] None "prog" "3" ["5"; "3"]).
  - discriminate.
  - reflexivity.
Defined.

(** ** The two schedulers side by side *)

(** X16: on any valid table (fresh or not) and for any [quantum > 0], fcfs_run
    and rr_run return the same time and leave the same [burst_left] in every
    PCB; only the waits can differ between the two. *)
Theorem schedulers_agree (ps : list pcb) (plen quantum : Z) :
  valid_table ps plen -> int_table ps -> 0 < quantum ->
  exists (ps1 ps2 : list pcb) (t : Z),
    fcfs_run (Some ps) plen = (Some ps1, t)
    /\ rr_run_returns (Some ps) plen quantum (Some ps2, t)
    /\ bursts_of ps1 = bursts_of ps2
    /\ t = wrap_int (sum_pos (bursts_of ps)).
Proof.
  intros Hvalid Hint Hq.
  destruct (fcfs_run_spec ps plen Hvalid Hint) as (ps1 & Hrun1 & Hl1 & Hfin1).
  destruct (Z_le_gt_dec plen 0) as [Hp|Hp].
  - assert (ps = []) as ->.
    { unfold valid_table in Hvalid. destruct ps; [reflexivity | simpl in Hvalid; lia]. }
    destruct ps1; [|discriminate]. exists [], [], (wrap_int (sum_pos (bursts_of []))).
    split; [assumption|]. split; [|split; reflexivity].
    exists O. intros m _. apply invalid_calls_noop_rr. auto.
  - destruct (rr_run_spec ps plen quantum Hvalid Hint ltac:(lia) Hq)
      as (ps2 & Hrun2 & Hl2 & Hfin2).
    exists ps1, ps2, (wrap_int (sum_pos (bursts_of ps))).
    split; [assumption|]. split; [assumption|]. split; [|reflexivity].
    apply list_eq. intros k. rewrite !bursts_of_lookup.
    destruct (ps !! k) as [p|] eqn:Hk.
    + rewrite (Hfin1 k p Hk). destruct (Hfin2 k p Hk) as (p' & Hp' & _ & Hbl & _).
      rewrite Hp'. cbn. f_equal. rewrite Hbl. unfold fcfs_cell.
      destruct (Z.gtb_spec (burst_left p) 0); cbn [burst_left]; lia.
    + rewrite (proj2 (lookup_ge_None ps1 k)), (proj2 (lookup_ge_None ps2 k));
        [reflexivity | |]; rewrite ?Hl1, ?Hl2; apply lookup_ge_None; assumption.
Qed.

Lemma schedulers_agree_witness :
  exists (ps1 ps2 : list pcb) (t : Z),
    fcfs_run (Some [mk_pcb 0 5 1; mk_pcb 1 (-3) 0; mk_pcb 2 8 2]) 3 = (Some ps1, t)
    /\ rr_run_returns (Some [mk_pcb 0 5 1; mk_pcb 1 (-3) 0; mk_pcb 2 8 2]) 3 4
         (Some ps2, t)
    /\ bursts_of ps1 = bursts_of ps2
    /\ t = wrap_int (sum_pos (bursts_of [mk_pcb 0 5 1; mk_pcb 1 (-3) 0; mk_pcb 2 8 2])).
Proof.
  apply (schedulers_agree [mk_pcb 0 5 1; mk_pcb 1 (-3) 0; mk_pcb 2 8 2] 3 4).
  - reflexivity.
  - int_table_tac.
  - lia.
Defined.
